(** * The chess session hub: a shallow embedding of [server/game-server.js]

    The hub is a Node.js WebSocket server.  Every connection owns a mutable
    [client] object; all connections share one [Map] from room identifiers
    to [Game] objects.  Node runs the handlers one at a time, so a handler
    is modelled as a function from the shared map and the caller's [client]
    to the new map, the new [client] and the list of frames written, in the
    order in which they are written.

    Conventions of the embedding:
    - a JavaScript object is a record, an optional field ([undefined]) is
      [None], and fields carry the types the JSDoc typedefs of the source
      give them ([gameId], [FEN], [name] are strings, [result] is a
      [GameResult], ...); an inbound frame that parses is a JSON object
      whose fields have these types;
    - [Map<string, Game>] is a [gmap string Game]; mutating a [Game] found
      with [games.get(k)] is an insertion at key [k];
    - [Set<WebSocket>] is a duplicate-free list in insertion order, which
      is the order in which JavaScript iterates a [Set];
    - a socket is an opaque handle (a number); whether it is [OPEN] when a
      frame is written is an input of every handler ([ready]);
    - the results of [randomUUID()] and [Math.random()] are inputs. *)

From Stdlib Require Import String Ascii List ZArith Bool Lia.
From stdpp Require Import base option list gmap strings.
Import ListNotations.

(** ** Data model *)

Inductive FigureColor := white | black.

Inductive Status := waiting | active | ended.

Inductive ResultType := mat | pat | draw | timeout | surrender.

Definition Socket := nat.

Record Figure := {
  fig_type : string;
  fig_color : FigureColor;
  fig_touched : option bool;
  fig_position : option (Z * Z)
}.

Record MoveData := {
  mv_from : Z * Z;
  mv_to : Z * Z;
  mv_figure : Figure;
  mv_type : option string;
  FEN : option string;
  timeWhite : option Z;
  timeBlack : option Z
}.

Record GameResult := {
  resultType : option ResultType;
  winColor : option FigureColor
}.

(** [Client]: the per-connection object, and also what a seat holds (a
    copy made with the spread operator). *)
Record Client := {
  c_id : string;
  c_socket : Socket;
  c_name : option string;
  c_color : option FigureColor;
  c_gameId : option string;
  c_viewer : option bool
}.

Record Players := {
  p_white : option Client;
  p_black : option Client
}.

Record Game := {
  g_id : string;
  g_fen : string;
  g_status : Status;
  g_players : Players;
  g_watchers : list Socket;
  g_moves : list MoveData;
  g_result : option GameResult
}.

(** A parsed inbound message: the fields the handlers read. *)
Record Msg := {
  m_type : option string;
  m_preferredColor : option string;
  m_gameId : option string;
  m_playerName : option string;
  m_result : option GameResult;
  m_move : option MoveData
}.

(** One entry of the seat summary built by [buildPlayers]. *)
Record PlayerInfo := {
  pi_color : FigureColor;
  pi_name : option string;
  pi_connected : bool
}.

(** Outbound payloads.  [JSON.stringify] drops [undefined] fields, so an
    absent field and a field that is [None] are the same frame. *)
Inductive Event :=
| EvError (message : string)
| EvPong
| EvSession (gameId : string) (color : option FigureColor)
    (viewer : option bool) (fen : string) (status : Status)
    (players : list PlayerInfo) (result : option GameResult)
| EvPlayerJoined (gameId : string) (players : list PlayerInfo)
    (status : Status)
| EvPlayerLeft (gameId : string) (players : list PlayerInfo)
    (status : Status)
| EvEnded (gameId : string) (result : option GameResult) (fen : string)
| EvMove (gameId : string) (move : MoveData) (fen : string)
    (nextToMove : FigureColor) (by_ : FigureColor).

(** A frame written to a socket. *)
Definition Sent : Type := Socket * Event.

Global Instance FigureColor_eq_dec : EqDecision FigureColor.
Proof. solve_decision. Defined.

Global Instance Status_eq_dec : EqDecision Status.
Proof. solve_decision. Defined.

(** ** Pure helpers of the source *)

Definition START_FEN : string :=
  "rnbqkbnr/pppppppp/8/8/8/8/PPPPPPPP/RNBQKBNR w KQkq - 0 1".

(** JavaScript truthiness of an optional string: [undefined] and the empty
    string are falsy. *)
Definition truthy (o : option string) : bool :=
  match o with
  | Some EmptyString => false
  | Some _ => true
  | None => false
  end.

(** [s.split(" ")]: cut at every single space; empty fields are kept and
    the empty string gives one empty field. *)
Fixpoint split_space (s : string) : list string :=
  match s with
  | EmptyString => [EmptyString]
  | String c rest =>
      if Ascii.eqb c " " then EmptyString :: split_space rest
      else match split_space rest with
           | f :: fs => String c f :: fs
           | [] => [String c EmptyString]
           end
  end.

(** [fen.split(" ")[1] === "b" ? "black" : "white"] *)
Definition getActiveColorFromFEN (fen : string) : FigureColor :=
  match split_space fen !! 1%nat with
  | Some f => if String.eqb f "b" then black else white
  | None => white
  end.

(** [preferred === "black" ? "black" : "white"] *)
Definition normalizeColor (preferred : option string) : FigureColor :=
  match preferred with
  | Some p => if String.eqb p "black" then black else white
  | None => white
  end.

(** [s.replace(/-/g, '')]: every dash is dropped. *)
Fixpoint remove_dashes (s : string) : string :=
  match s with
  | EmptyString => EmptyString
  | String c rest =>
      if Ascii.eqb c "-" then remove_dashes rest
      else String c (remove_dashes rest)
  end.

(** [createGameId]: the first eight characters of the UUID drawn, dashes
    dropped. *)
Definition createGameId (uuid : string) : string :=
  String.substring 0 8 (remove_dashes uuid).

(** A truthy optional string, or nothing: the value [x] for which the
    source tests [if (x)], [!x] or [x || ...]. *)
Definition if_truthy (o : option string) : option string :=
  if truthy o then o else None.

(** ** Seats, observers and the seat summary *)

Definition player_at (ps : Players) (color : FigureColor) : option Client :=
  match color with
  | white => p_white ps
  | black => p_black ps
  end.

Definition set_player (ps : Players) (color : FigureColor)
    (v : option Client) : Players :=
  match color with
  | white => {| p_white := v; p_black := p_black ps |}
  | black => {| p_white := p_white ps; p_black := v |}
  end.

Definition no_players : Players := {| p_white := None; p_black := None |}.

(** [game.players.white && game.players.black] *)
Definition both_seated (ps : Players) : bool :=
  match p_white ps, p_black ps with
  | Some _, Some _ => true
  | _, _ => false
  end.

(** [game.players.white && game.players.black ? "active" : "waiting"] *)
Definition seat_status (ps : Players) : Status :=
  if both_seated ps then active else waiting.

(** [watchers.add(socket)] *)
Definition watchers_add (ws : list Socket) (s : Socket) : list Socket :=
  if bool_decide (s ∈ ws) then ws else ws ++ [s].

(** [watchers.delete(socket)] *)
Definition watchers_delete (ws : list Socket) (s : Socket) : list Socket :=
  filter (fun x => x ≠ s) ws.

Definition buildPlayers (game : Game) : list PlayerInfo :=
  map (fun color =>
         let player := player_at (g_players game) color in
         {| pi_color := color;
            pi_name := player ≫= c_name;
            pi_connected := bool_decide (is_Some player) |})
      [white; black].

Definition with_status (game : Game) (st : Status) : Game :=
  {| g_id := g_id game; g_fen := g_fen game; g_status := st;
     g_players := g_players game; g_watchers := g_watchers game;
     g_moves := g_moves game; g_result := g_result game |}.

Definition with_players (game : Game) (ps : Players) : Game :=
  {| g_id := g_id game; g_fen := g_fen game; g_status := g_status game;
     g_players := ps; g_watchers := g_watchers game;
     g_moves := g_moves game; g_result := g_result game |}.

Definition with_watchers (game : Game) (ws : list Socket) : Game :=
  {| g_id := g_id game; g_fen := g_fen game; g_status := g_status game;
     g_players := g_players game; g_watchers := ws;
     g_moves := g_moves game; g_result := g_result game |}.

Definition with_result (game : Game) (r : option GameResult) : Game :=
  {| g_id := g_id game; g_fen := g_fen game; g_status := g_status game;
     g_players := g_players game; g_watchers := g_watchers game;
     g_moves := g_moves game; g_result := r |}.

(** [game.fen = moveData.FEN; game.moves.push(moveData)] *)
Definition with_move (game : Game) (fen : string) (mv : MoveData) : Game :=
  {| g_id := g_id game; g_fen := fen; g_status := g_status game;
     g_players := g_players game; g_watchers := g_watchers game;
     g_moves := g_moves game ++ [mv]; g_result := g_result game |}.

(** What a handler leaves behind: the shared map, the caller's [client]
    object and the frames written. *)
Record Reply := {
  r_games : gmap string Game;
  r_client : Client;
  r_sent : list Sent
}.

Definition type_is (m : Msg) (t : string) : bool :=
  match m_type m with
  | Some t' => String.eqb t' t
  | None => false
  end.

(** [isMoveMessage]: type ["move"], a string [gameId], a truthy [move]
    (an object is always truthy). *)
Definition isMoveMessage (m : Msg) : option MoveData :=
  if type_is m "move" then
    match m_gameId m with
    | Some _ => m_move m
    | None => None
    end
  else None.

(** ** The hub of [server/game-server.js] *)

Module Hub.
Section Handlers.

(** [socket.readyState === WebSocket.OPEN], when the handler runs. *)
Variable ready : Socket -> bool.

Definition safeSend (socket : Socket) (payload : Event) : list Sent :=
  if ready socket then [(socket, payload)] else [].

(** The sockets a broadcast goes through, in order: white seat, black
    seat, then the observers. *)
Definition audience (game : Game) : list Socket :=
  option_list (c_socket <$> p_white (g_players game))
    ++ option_list (c_socket <$> p_black (g_players game))
    ++ g_watchers game.

Definition broadcast (game : Game) (payload : Event)
    (exclude : option Socket) : list Sent :=
  flat_map
    (fun socket =>
       if bool_decide (exclude = Some socket) then []
       else safeSend socket payload)
    (audience game).

(** The seat or observer entry that [removeClientFromGame] clears. *)
Definition vacate (game : Game) (client : Client) : Game :=
  let ps := g_players game in
  if bool_decide (c_id <$> p_white ps = Some (c_id client)) then
    with_players game (set_player ps white None)
  else if bool_decide (c_id <$> p_black ps = Some (c_id client)) then
    with_players game (set_player ps black None)
  else
    with_watchers game (watchers_delete (g_watchers game) (c_socket client)).

Definition removeClientFromGame (games : gmap string Game)
    (client : Client) : gmap string Game * list Sent :=
  match if_truthy (c_gameId client) with
  | None => (games, [])
  | Some gid =>
      match games !! gid with
      | None => (games, [])
      | Some game =>
          let g1 := vacate game client in
          let g2 := with_status g1 (seat_status (g_players g1)) in
          (<[gid := g2]> games,
           broadcast g2
             (EvPlayerLeft (g_id g2) (buildPlayers g2) (g_status g2))
             None)
      end
  end.

Definition reply_error (games : gmap string Game) (client : Client)
    (message : string) : Reply :=
  {| r_games := games; r_client := client;
     r_sent := safeSend (c_socket client) (EvError message) |}.

(** [create] *)
Definition on_create (games : gmap string Game) (client : Client)
    (parsed : Msg) (uuid : string) : Reply :=
  let color := normalizeColor (m_preferredColor parsed) in
  let gameId := default (createGameId uuid) (if_truthy (m_gameId parsed)) in
  match games !! gameId with
  | Some _ => reply_error games client "Game already exists"
  | None =>
      let seat :=
        {| c_id := c_id client; c_socket := c_socket client;
           c_name := m_playerName parsed; c_color := Some color;
           c_gameId := c_gameId client; c_viewer := c_viewer client |} in
      let game :=
        {| g_id := gameId; g_fen := START_FEN; g_status := waiting;
           g_players := set_player no_players color (Some seat);
           g_watchers := []; g_moves := []; g_result := None |} in
      let client' :=
        {| c_id := c_id client; c_socket := c_socket client;
           c_name := m_playerName parsed; c_color := Some color;
           c_gameId := Some gameId; c_viewer := c_viewer client |} in
      {| r_games := <[gameId := game]> games;
         r_client := client';
         r_sent :=
           safeSend (c_socket client)
             (EvSession gameId (Some color) None (g_fen game)
                (g_status game) (buildPlayers game) None) |}
  end.

Definition slotIsFree (game : Game) (color : FigureColor) : bool :=
  bool_decide (player_at (g_players game) color = None).

(** The seat a joiner gets, if any. *)
Definition assignedColor (game : Game) (preferredColor : FigureColor)
    : option FigureColor :=
  if slotIsFree game preferredColor then Some preferredColor
  else if slotIsFree game white then Some white
  else if slotIsFree game black then Some black
  else None.

(** [join] *)
Definition on_join (games : gmap string Game) (client : Client)
    (parsed : Msg) : Reply :=
  match m_gameId parsed ≫= (fun k => (fun g => (k, g)) <$> games !! k) with
  | None => reply_error games client "Game not found"
  | Some (key, game) =>
      let preferredColor := normalizeColor (m_preferredColor parsed) in
      let '(client', game') :=
        match assignedColor game preferredColor with
        | Some col =>
            let c :=
              {| c_id := c_id client; c_socket := c_socket client;
                 c_name := m_playerName parsed; c_color := Some col;
                 c_gameId := Some (g_id game); c_viewer := Some false |} in
            let g1 :=
              with_players game (set_player (g_players game) col (Some c)) in
            (c, with_status g1 (seat_status (g_players g1)))
        | None =>
            let c :=
              {| c_id := c_id client; c_socket := c_socket client;
                 c_name := m_playerName parsed; c_color := c_color client;
                 c_gameId := Some (g_id game); c_viewer := Some true |} in
            (c, with_watchers game
                  (watchers_add (g_watchers game) (c_socket client)))
        end in
      {| r_games := <[key := game']> games;
         r_client := client';
         r_sent :=
           safeSend (c_socket client)
             (EvSession (g_id game') (c_color client') (c_viewer client')
                (g_fen game') (g_status game') (buildPlayers game')
                (g_result game'))
           ++ broadcast game'
                (EvPlayerJoined (g_id game') (buildPlayers game')
                   (g_status game'))
                (Some (c_socket client)) |}
  end.

(** [end] *)
Definition on_end (games : gmap string Game) (client : Client)
    (parsed : Msg) : Reply :=
  match if_truthy (c_gameId client) with
  | None => reply_error games client "Not in a game"
  | Some gid =>
      match games !! gid with
      | None => {| r_games := games; r_client := client; r_sent := [] |}
      | Some game =>
          let game' := with_result (with_status game ended) (m_result parsed) in
          {| r_games := <[gid := game']> games;
             r_client := client;
             r_sent :=
               broadcast game'
                 (EvEnded (g_id game') (m_result parsed) (g_fen game'))
                 None |}
      end
  end.

(** [move], for a message that passed [isMoveMessage]. *)
Definition on_move (games : gmap string Game) (client : Client)
    (moveData : MoveData) : Reply :=
  match if_truthy (c_gameId client), c_color client with
  | Some gid, Some color =>
      match games !! gid with
      | None => reply_error games client "Game not found"
      | Some game =>
          let activeColor := getActiveColorFromFEN (g_fen game) in
          if bool_decide (activeColor ≠ color) then
            reply_error games client "Not your turn"
          else
            match if_truthy (FEN moveData) with
            | None => reply_error games client "Move is missing FEN"
            | Some fen =>
                let game' := with_move game fen moveData in
                let nextToMove := getActiveColorFromFEN (g_fen game') in
                {| r_games := <[gid := game']> games;
                   r_client := client;
                   r_sent :=
                     broadcast game'
                       (EvMove (g_id game') moveData (g_fen game')
                          nextToMove color)
                       None |}
            end
      end
  | _, _ => reply_error games client "Join a game first"
  end.

(** [socket.on("message")]: [parsed] is the result of [JSON.parse]
    ([None] when it throws), [uuid] the UUID [createGameId] would draw. *)
Definition on_message (games : gmap string Game) (client : Client)
    (parsed : option Msg) (uuid : string) : Reply :=
  match parsed with
  | None => reply_error games client "Bad JSON payload"
  | Some m =>
      if type_is m "ping" then
        {| r_games := games; r_client := client;
           r_sent := safeSend (c_socket client) EvPong |}
      else if type_is m "create" then on_create games client m uuid
      else if type_is m "join" then on_join games client m
      else if type_is m "end" then on_end games client m
      else match isMoveMessage m with
           | Some moveData => on_move games client moveData
           | None => reply_error games client "Unknown message type"
           end
  end.

End Handlers.
End Hub.

(** ** The hub as a transition system

    The server reacts to three things: a new connection, a frame from a
    connection and the close of a connection.  [conns] holds the [client]
    object of every connection that is still open. *)

Record World := {
  games : gmap string Game;
  conns : gmap Socket Client
}.

Inductive Input :=
| Connect (socket : Socket) (uuid : string)
| Receive (socket : Socket) (parsed : option Msg) (uuid : string)
| Close (socket : Socket).

(** An input together with the sockets that are [OPEN] while its handler
    runs. *)
Record Tick := {
  t_ready : Socket -> bool;
  t_input : Input
}.

Definition empty_world : World := {| games := ∅; conns := ∅ |}.

(** [const client = { id: clientId, socket }] *)
Definition new_client (socket : Socket) (uuid : string) : Client :=
  {| c_id := uuid; c_socket := socket; c_name := None; c_color := None;
     c_gameId := None; c_viewer := None |}.

(** When the close event of a socket fires, that socket is no longer
    [OPEN]. *)
Definition closed_for (s : Socket) (ready : Socket -> bool) : Socket -> bool :=
  fun x => if bool_decide (x = s) then false else ready x.

Definition step (w : World) (t : Tick) : World * list Sent :=
  match t_input t with
  | Connect s uuid =>
      match conns w !! s with
      | Some _ => (w, [])
      | None =>
          ({| games := games w; conns := <[s := new_client s uuid]> (conns w) |},
           [])
      end
  | Receive s parsed uuid =>
      match conns w !! s with
      | None => (w, [])
      | Some client =>
          let r := Hub.on_message (t_ready t) (games w) client parsed uuid in
          ({| games := r_games r; conns := <[s := r_client r]> (conns w) |},
           r_sent r)
      end
  | Close s =>
      match conns w !! s with
      | None => (w, [])
      | Some client =>
          let '(gs, out) :=
            Hub.removeClientFromGame (closed_for s (t_ready t)) (games w)
              client in
          ({| games := gs; conns := delete s (conns w) |}, out)
      end
  end.

Fixpoint run (w : World) (ts : list Tick) : World * list Sent :=
  match ts with
  | [] => (w, [])
  | t :: ts' =>
      let '(w1, out1) := step w t in
      let '(w2, out2) := run w1 ts' in
      (w2, out1 ++ out2)
  end.

(** The seats of a room that hold the connection with identity [cid]. *)
Definition holds_seat (game : Game) (color : FigureColor) (cid : string)
    : Prop :=
  c_id <$> player_at (g_players game) color = Some cid.

Definition other_color (color : FigureColor) : FigureColor :=
  match color with
  | white => black
  | black => white
  end.

(** ** The hub with a matchmaking queue

    The repository holds a second [createGameServer] (the source kept
    after the React hook in [app/hooks/useChessWebSocket.ts]), which adds
    the [queue], [cancel_queue] and [list_games] messages.  Its [queue]
    handler is embedded here.  The room map is kept in insertion order,
    because the games list walks it. *)

Module QueueHub.

Record QueueEntry := {
  clientId : string;
  q_socket : Socket;
  q_playerName : option string;
  timestamp : Z
}.

(** The [client] object of this hub has two more optional fields. *)
Record QClient := {
  q_client : Client;
  inQueue : option bool;
  tempSlot : option bool
}.

Record GameSummary := {
  gs_id : string;
  gs_status : Status;
  gs_fen : string;
  gs_players : list PlayerInfo;
  watcherCount : nat;
  moveCount : nat
}.

Inductive QEvent :=
| EvQueueStatus (position : nat) (waiting_ : bool)
| EvMatched (gameId : string) (color : FigureColor) (fen : string)
    (status : Status) (players : list PlayerInfo) (colorRevealed : bool)
| EvGamesList (games : list GameSummary)
| EvOther (e : Event).

Definition QSent : Type := Socket * QEvent.

(** [games.set(k, g)] on a [Map] in insertion order. *)
Fixpoint map_set (m : list (string * Game)) (k : string) (g : Game)
    : list (string * Game) :=
  match m with
  | [] => [(k, g)]
  | (k', g') :: rest =>
      if String.eqb k' k then (k, g) :: rest
      else (k', g') :: map_set rest k g
  end.

(** [games.get(k)] *)
Fixpoint map_get (m : list (string * Game)) (k : string) : option Game :=
  match m with
  | [] => None
  | (k', g') :: rest => if String.eqb k' k then Some g' else map_get rest k
  end.

(** [Math.random() < 0.5 ? "white" : "black"], on the outcome of the
    comparison. *)
Definition randomColor (below_half : bool) : FigureColor :=
  if below_half then white else black.

Record QReply := {
  qr_games : list (string * Game);
  qr_queue : list QueueEntry;
  qr_client : QClient;
  qr_sent : list QSent
}.

Section Handlers.

Variable ready : Socket -> bool.
(** [wss.clients], in the order in which the server walks them. *)
Variable wss_clients : list Socket.

Definition safeSend (socket : Socket) (payload : QEvent) : list QSent :=
  if ready socket then [(socket, payload)] else [].

Definition gamesList (games : list (string * Game)) : list GameSummary :=
  map (fun g =>
         {| gs_id := g_id g; gs_status := g_status g; gs_fen := g_fen g;
            gs_players := buildPlayers g;
            watcherCount := length (g_watchers g);
            moveCount := length (g_moves g) |})
      (filter (fun g => g_status g = active) (map snd games)).

Definition broadcastGamesList (games : list (string * Game))
    : list QSent :=
  flat_map
    (fun client =>
       if ready client then safeSend client (EvGamesList (gamesList games))
       else [])
    wss_clients.

Definition seat_of (e : QueueEntry) (color : FigureColor)
    (gameId : string) : Client :=
  {| c_id := clientId e; c_socket := q_socket e;
     c_name := q_playerName e; c_color := Some color;
     c_gameId := Some gameId; c_viewer := None |}.

(** [queue]: [now] is [Date.now()], [below_half] decides
    [randomColor()], [uuid] is drawn by [createGameId()]. *)
Definition on_queue (games : list (string * Game))
    (queue : list QueueEntry) (client : QClient) (parsed : Msg)
    (now : Z) (below_half : bool) (uuid : string) : QReply :=
  let socket := c_socket (q_client client) in
  let queueEntry :=
    {| clientId := c_id (q_client client); q_socket := socket;
       q_playerName := m_playerName parsed; timestamp := now |} in
  let queue1 := queue ++ [queueEntry] in
  let c := q_client client in
  let client' :=
    {| q_client :=
         {| c_id := c_id c; c_socket := c_socket c; c_name := c_name c;
            c_color := c_color c; c_gameId := None;
            c_viewer := c_viewer c |};
       inQueue := Some true; tempSlot := tempSlot client |} in
  let status_frame :=
    safeSend socket (EvQueueStatus (length queue1) true) in
  match queue1 with
  | player1 :: player2 :: rest =>
      let p1Color := randomColor below_half in
      let p2Color := other_color p1Color in
      let gameId := createGameId uuid in
      let game :=
        {| g_id := gameId; g_fen := START_FEN; g_status := active;
           g_players :=
             set_player
               (set_player no_players p1Color
                  (Some (seat_of player1 p1Color gameId)))
               p2Color (Some (seat_of player2 p2Color gameId));
           g_watchers := []; g_moves := []; g_result := None |} in
      let games' := map_set games gameId game in
      {| qr_games := games'; qr_queue := rest; qr_client := client';
         qr_sent :=
           status_frame
           ++ safeSend (q_socket player1)
                (EvMatched gameId p1Color START_FEN active
                   (buildPlayers game) true)
           ++ safeSend (q_socket player2)
                (EvMatched gameId p2Color START_FEN active
                   (buildPlayers game) true)
           ++ broadcastGamesList games' |}
  | _ =>
      {| qr_games := games; qr_queue := queue1; qr_client := client';
         qr_sent := status_frame |}
  end.

End Handlers.
End QueueHub.

(** ** Vocabulary of the statements *)

(** A field of a position string: no space in it. *)
Fixpoint no_space (s : string) : bool :=
  match s with
  | EmptyString => true
  | String c rest => negb (Ascii.eqb c " ") && no_space rest
  end.

(** [fields.join(" ")] *)
Fixpoint join_space (fields : list string) : string :=
  match fields with
  | [] => EmptyString
  | [f] => f
  | f :: fs => String.append f (String " " (join_space fs))
  end.

(** ** Sample inputs *)

Definition always_open : Socket -> bool := fun _ => true.

(** A value of [randomUUID()]. *)
Definition some_uuid : string := "3f2a9c1e-7b4d-4e8a-9c0d-5a6b7c8d9e0f".

Definition tick (i : Input) : Tick :=
  {| t_ready := always_open; t_input := i |}.

Definition msg_create (gameId preferredColor : option string) : Msg :=
  {| m_type := Some "create"%string; m_preferredColor := preferredColor;
     m_gameId := gameId; m_playerName := None; m_result := None;
     m_move := None |}.

Definition msg_join (gameId preferredColor : option string) : Msg :=
  {| m_type := Some "join"%string; m_preferredColor := preferredColor;
     m_gameId := gameId; m_playerName := None; m_result := None;
     m_move := None |}.

Definition msg_end (result : option GameResult) : Msg :=
  {| m_type := Some "end"%string; m_preferredColor := None;
     m_gameId := None; m_playerName := None; m_result := result;
     m_move := None |}.

Definition msg_move (gameId : string) (move : MoveData) : Msg :=
  {| m_type := Some "move"%string; m_preferredColor := None;
     m_gameId := Some gameId; m_playerName := None; m_result := None;
     m_move := Some move |}.

Definition msg_queue : Msg :=
  {| m_type := Some "queue"%string; m_preferredColor := None;
     m_gameId := None; m_playerName := None; m_result := None;
     m_move := None |}.

(** The white king's pawn from e2 to e4, with the position it leads to. *)
Definition pawn_move (fen : option string) : MoveData :=
  {| mv_from := (6, 4)%Z; mv_to := (4, 4)%Z;
     mv_figure := {| fig_type := "pawn"; fig_color := white;
                     fig_touched := None; fig_position := None |};
     mv_type := None; FEN := fen; timeWhite := None; timeBlack := None |}.

Definition AFTER_E4 : string :=
  "rnbqkbnr/pppppppp/8/8/4P3/8/PPPP1PPP/RNBQKBNR b KQkq - 0 1".

Definition resignation : GameResult :=
  {| resultType := Some surrender; winColor := Some black |}.

(** Socket 1 creates room ["a"] and sits as white. *)
Definition one_seated : World :=
  (run empty_world
     [tick (Connect 1 "u1");
      tick (Receive 1 (Some (msg_create (Some "a"%string) None)) some_uuid)]).1.

(** Then socket 2 joins as black and socket 3 as an observer. *)
Definition full_table : World :=
  (run one_seated
     [tick (Connect 2 "u2");
      tick (Receive 2 (Some (msg_join (Some "a"%string) None)) some_uuid);
      tick (Connect 3 "u3");
      tick (Receive 3 (Some (msg_join (Some "a"%string) None)) some_uuid)]).1.

(** Room ["a"] after its only player has ended the game. *)
Definition ended_table : World :=
  (run one_seated
     [tick (Receive 1 (Some (msg_end (Some resignation))) some_uuid)]).1.

(** Room ["a"] is created by socket 1, which then creates room ["b"]
    and disconnects. *)
Definition abandoned_seat : World :=
  (run empty_world
     [tick (Connect 1 "u1");
      tick (Receive 1 (Some (msg_create (Some "a"%string) None)) some_uuid);
      tick (Receive 1 (Some (msg_create (Some "b"%string) None)) some_uuid);
      tick (Close 1)]).1.

(** Two connections that have not sent anything yet. *)
Definition two_strangers : World :=
  (run empty_world [tick (Connect 1 "u1"); tick (Connect 2 "u2")]).1.

(** A frame that carries a join message. *)
Definition is_join (t : Tick) : bool :=
  match t_input t with
  | Receive _ (Some m) _ => type_is m "join"
  | _ => false
  end.

(** Both seats of a room are taken. *)
Definition both_occupied (g : Game) : Prop :=
  is_Some (p_white (g_players g)) ∧ is_Some (p_black (g_players g)).

(** A frame that carries an end message. *)
Definition is_end (t : Tick) : bool :=
  match t_input t with
  | Receive _ (Some m) _ => type_is m "end"
  | _ => false
  end.

(** In every room the status is active exactly when both seats are taken. *)
Definition status_follows_seats (games : gmap string Game) : Prop :=
  map_Forall (fun _ g => g_status g = active ↔ both_occupied g) games.

(** A room identifier: no dash in it. *)
Fixpoint no_dash (s : string) : bool :=
  match s with
  | EmptyString => true
  | String c rest => negb (Ascii.eqb c "-") && no_dash rest
  end.

(** What holds of every world the hub can reach: a room is stored under
    its own identifier, a connection record is kept under its own socket,
    the room a connection has on record exists, and the record in a seat
    carries the colour of that seat. *)
Record wf_world (w : World) : Prop := {
  wf_room_id : ∀ k g, games w !! k = Some g → g_id g = k;
  wf_conn_socket : ∀ s c, conns w !! s = Some c → c_socket c = s;
  wf_recorded_room :
    ∀ s c gid, conns w !! s = Some c → c_gameId c = Some gid →
               is_Some (games w !! gid);
  wf_seat_color :
    ∀ k g color c, games w !! k = Some g →
                   player_at (g_players g) color = Some c →
                   c_color c = Some color
}.

(** The position a move log leads to: the one carried by its last record,
    the initial position when the log is empty. *)
Definition position_of_log (moves : list MoveData) : option string :=
  match last moves with
  | None => Some START_FEN
  | Some mv => if_truthy (FEN mv)
  end.

(** How one step may change the move log of a room: not at all, or by one
    record appended, whose position becomes the position of the room. *)
Definition log_step (g g' : Game) : Prop :=
  (g_moves g' = g_moves g ∧ g_fen g' = g_fen g)
  ∨ ∃ mv fen,
      if_truthy (FEN mv) = Some fen
      ∧ g_moves g' = g_moves g ++ [mv] ∧ g_fen g' = fen.

(** The position of the room is the one its move log leads to, and every
    record of the log carries a position. *)
Definition log_gives_position (g : Game) : Prop :=
  position_of_log (g_moves g) = Some (g_fen g)
  ∧ Forall (fun mv => truthy (FEN mv) = true) (g_moves g).

(** ** More of the hub with a matchmaking queue

    Its [cancel_queue] and [list_games] handlers, and the inputs that
    change the queue taken one after the other. *)

Module QueueOps.

Inductive Frame :=
| EvQueueCancelled
| EvQ (e : QueueHub.QEvent).

(** [queue.findIndex((e) => e.clientId === id)] followed by
    [queue.splice(index, 1)]: the queue without the first entry of that
    client, or nothing when the index is [-1]. *)
Fixpoint remove_first (id : string) (queue : list QueueHub.QueueEntry)
    : option (list QueueHub.QueueEntry) :=
  match queue with
  | [] => None
  | e :: rest =>
      if String.eqb (QueueHub.clientId e) id then Some rest
      else cons e <$> remove_first id rest
  end.

Record CancelReply := {
  cr_queue : list QueueHub.QueueEntry;
  cr_client : QueueHub.QClient;
  cr_sent : list (Socket * Frame)
}.

Section Handlers.

Variable ready : Socket -> bool.

Definition safeSend (socket : Socket) (payload : Frame)
    : list (Socket * Frame) :=
  if ready socket then [(socket, payload)] else [].

(** [cancel_queue] *)
Definition on_cancel_queue (queue : list QueueHub.QueueEntry)
    (client : QueueHub.QClient) : CancelReply :=
  let socket := c_socket (QueueHub.q_client client) in
  match remove_first (c_id (QueueHub.q_client client)) queue with
  | Some queue' =>
      {| cr_queue := queue';
         cr_client :=
           {| QueueHub.q_client := QueueHub.q_client client;
              QueueHub.inQueue := Some false;
              QueueHub.tempSlot := QueueHub.tempSlot client |};
         cr_sent := safeSend socket EvQueueCancelled |}
  | None =>
      {| cr_queue := queue; cr_client := client;
         cr_sent := safeSend socket EvQueueCancelled |}
  end.

(** [list_games]: the reply to the one who asks. *)
Definition on_list_games (games : list (string * Game))
    (client : QueueHub.QClient) : list QueueHub.QSent :=
  QueueHub.safeSend ready (c_socket (QueueHub.q_client client))
    (QueueHub.EvGamesList (QueueHub.gamesList games)).

End Handlers.

(** The inputs that touch the queue. *)
Inductive QueueInput :=
| Enqueue (client : QueueHub.QClient) (parsed : Msg) (now : Z)
    (below_half : bool) (uuid : string)
| Cancel (client : QueueHub.QClient).

Definition queue_step (ready : Socket -> bool) (wss_clients : list Socket)
    (state : list (string * Game) * list QueueHub.QueueEntry)
    (i : QueueInput) : list (string * Game) * list QueueHub.QueueEntry :=
  match i with
  | Enqueue client parsed now below_half uuid =>
      let r :=
        QueueHub.on_queue ready wss_clients state.1 state.2 client parsed
          now below_half uuid in
      (QueueHub.qr_games r, QueueHub.qr_queue r)
  | Cancel client => (state.1, cr_queue (on_cancel_queue ready state.2 client))
  end.

Definition queue_run (ready : Socket -> bool) (wss_clients : list Socket)
    (state : list (string * Game) * list QueueHub.QueueEntry)
    (inputs : list QueueInput)
    : list (string * Game) * list QueueHub.QueueEntry :=
  fold_left (queue_step ready wss_clients) inputs state.

End QueueOps.

(** A client that has not queued yet. *)
Definition fresh_qclient (socket : Socket) (uuid : string)
    : QueueHub.QClient :=
  {| QueueHub.q_client := new_client socket uuid;
     QueueHub.inQueue := None; QueueHub.tempSlot := None |}.

(** The queue entry a client makes. *)
Definition entry_of (client : QueueHub.QClient) (parsed : Msg) (now : Z)
    : QueueHub.QueueEntry :=
  {| QueueHub.clientId := c_id (QueueHub.q_client client);
     QueueHub.q_socket := c_socket (QueueHub.q_client client);
     QueueHub.q_playerName := m_playerName parsed;
     QueueHub.timestamp := now |}.

(** ** The browser side

    [app/components/ChessGame.tsx] keeps the state of one board in React
    state variables and updates them from the frames it is handed; the
    state is a record here and the handler a function on it.  The chess
    rules library is outside the repository: what [chess.load(fen)]
    followed by [chess.fen()] gives is a parameter ([None] when the load
    throws).  [app/services/websocket.ts] keeps one socket for the page,
    the listeners of the components and the reconnection count. *)

Module ClientUI.

Inductive GameStatus := ui_idle | ui_waiting | ui_active | ui_ended.

Inductive ConnectionState := cs_connecting | cs_open | cs_closed.

Global Instance ConnectionState_eq_dec : EqDecision ConnectionState.
Proof. solve_decision. Defined.

Record MoveMessageData := {
  mm_from : string;
  mm_to : string;
  mm_san : option string;
  mm_promotion : option string;
  mm_FEN : option string;
  mm_color : option FigureColor
}.

(** A frame as the board handler reads it: the [type] and the fields it
    looks at. *)
Inductive ServerMessage :=
| SmSession (color : option FigureColor) (viewer : option bool)
| SmMove (move : MoveMessageData) (fen : option string)
| SmRoster (players : option (list PlayerInfo)) (status : option GameStatus)
| SmEnded (result : option GameResult) (fen : option string)
| SmError (message : string)
| SmOther.

Record Board := {
  b_fen : string;
  b_players : list PlayerInfo;
  b_status : GameStatus;
  b_viewer : bool;
  b_result : option GameResult;
  b_error : option string;
  b_lastMove : option (string * string);
  b_assignedColor : option FigureColor
}.

(** [{ ...base, ...player }]: the fields [player] has replace those of
    [base]; a name that is absent leaves the one of [base]. *)
Definition spread (base player : PlayerInfo) : PlayerInfo :=
  {| pi_color := pi_color player;
     pi_name := match pi_name player with
                | Some n => Some n
                | None => pi_name base
                end;
     pi_connected := pi_connected player |}.

Definition base_slot (color : FigureColor) : PlayerInfo :=
  {| pi_color := color; pi_name := None; pi_connected := false |}.

(** [normalizePlayers]: the pair is the [base] record, white then black. *)
Definition normalizePlayers (players : option (list PlayerInfo))
    : list PlayerInfo :=
  let base :=
    fold_left
      (fun (base : PlayerInfo * PlayerInfo) player =>
         match pi_color player with
         | white => (spread base.1 player, base.2)
         | black => (base.1, spread base.2 player)
         end)
      (default [] players) (base_slot white, base_slot black) in
  [base.1; base.2].

Definition initial_board : Board :=
  {| b_fen := START_FEN; b_players := normalizePlayers None;
     b_status := ui_idle; b_viewer := false; b_result := None;
     b_error := None; b_lastMove := None; b_assignedColor := None |}.

Section Board.

(** [chess.load(fen); chess.fen()] *)
Variable reload : string -> option string.

(** [syncChessToFen] *)
Definition syncChessToFen (b : Board) (nextFen : string) : Board :=
  match reload nextFen with
  | Some fen =>
      {| b_fen := fen; b_players := b_players b; b_status := b_status b;
         b_viewer := b_viewer b; b_result := b_result b;
         b_error := b_error b; b_lastMove := b_lastMove b;
         b_assignedColor := b_assignedColor b |}
  | None => b
  end.

(** [handleServerMessage] of the board component. *)
Definition handleServerMessage (b : Board) (msg : ServerMessage) : Board :=
  match msg with
  | SmSession color viewer =>
      match color with
      | Some c =>
          {| b_fen := b_fen b; b_players := b_players b;
             b_status := b_status b; b_viewer := default false viewer;
             b_result := b_result b; b_error := b_error b;
             b_lastMove := b_lastMove b; b_assignedColor := Some c |}
      | None => b
      end
  | SmMove move fen =>
      let nextFen :=
        default (default START_FEN (if_truthy (mm_FEN move))) (if_truthy fen) in
      let b1 := syncChessToFen b nextFen in
      {| b_fen := b_fen b1; b_players := b_players b1;
         b_status := b_status b1; b_viewer := b_viewer b1;
         b_result := None; b_error := b_error b1;
         b_lastMove := Some (mm_from move, mm_to move);
         b_assignedColor := b_assignedColor b1 |}
  | SmRoster players status =>
      {| b_fen := b_fen b; b_players := normalizePlayers players;
         b_status := default ui_waiting status; b_viewer := b_viewer b;
         b_result := b_result b; b_error := b_error b;
         b_lastMove := b_lastMove b; b_assignedColor := b_assignedColor b |}
  | SmEnded result fen =>
      let b1 :=
        match if_truthy fen with
        | Some f => syncChessToFen b f
        | None => b
        end in
      {| b_fen := b_fen b1; b_players := b_players b1; b_status := ui_ended;
         b_viewer := b_viewer b1; b_result := result; b_error := b_error b1;
         b_lastMove := b_lastMove b1;
         b_assignedColor := b_assignedColor b1 |}
  | SmError message =>
      {| b_fen := b_fen b; b_players := b_players b; b_status := b_status b;
         b_viewer := b_viewer b; b_result := b_result b;
         b_error := Some message; b_lastMove := b_lastMove b;
         b_assignedColor := b_assignedColor b |}
  | SmOther => b
  end.

End Board.

(** [canMove], as the truth value the component uses. *)
Definition canMove (connectionState : ConnectionState) (b : Board) : bool :=
  match connectionState, b_viewer b, b_assignedColor b, b_status b,
        b_result b with
  | cs_open, false, Some color, ui_active, None =>
      bool_decide (getActiveColorFromFEN (b_fen b) = color)
  | _, _, _, _, _ => false
  end.

(** [statusLabel] *)
Definition statusLabel (b : Board) : string :=
  match b_result b with
  | Some _ => "Game finished"
  | None =>
      match b_status b with
      | ui_waiting => "Waiting for an opponent"
      | ui_active =>
          match b_viewer b, b_assignedColor b with
          | false, Some color =>
              if bool_decide (getActiveColorFromFEN (b_fen b) = color)
              then "Your move" else "Opponent to move"
          | _, _ => "Watching the board"
          end
      | _ => "Not in a game yet"
      end
  end.

(** A frame that is not about who sits where. *)
Definition not_roster (msg : ServerMessage) : bool :=
  match msg with
  | SmRoster _ _ => false
  | _ => true
  end.

(** *** The socket service *)

Definition Listener := nat.

(** [subscribe(key, listener)] on [messageListeners], a map from keys to
    sets of listeners. *)
Definition subscribe (listeners : gmap string (list Listener))
    (key : string) (l : Listener) : gmap string (list Listener) :=
  let current := default [] (listeners !! key) in
  <[key := if bool_decide (l ∈ current) then current else current ++ [l]]>
    listeners.

(** [unsubscribe(key, listener)] *)
Definition unsubscribe (listeners : gmap string (list Listener))
    (key : string) (l : Listener) : gmap string (list Listener) :=
  match listeners !! key with
  | Some current =>
      let rest := filter (fun x => x ≠ l) current in
      match rest with
      | [] => delete key listeners
      | _ => <[key := rest]> listeners
      end
  | None => listeners
  end.

(** [routeMessage(message)]: the listeners called, in order; [gameId] is
    the field of that name in the message. *)
Definition routeMessage (listeners : gmap string (list Listener))
    (gameId : option string) : list Listener :=
  match if_truthy gameId with
  | Some g => default [] (listeners !! g)
  | None => default [] (listeners !! "__global__"%string)
  end.

(** The key a component subscribes under in [useChessWebSocket]:
    [options.autoJoinGameId || "__global__"]. *)
Definition subscription_key (autoJoinGameId : option string) : string :=
  default "__global__"%string (if_truthy autoJoinGameId).

(** The [gameId] field of the frames the hub writes. *)
Definition event_gameId (e : Event) : option string :=
  match e with
  | EvError _ | EvPong => None
  | EvSession g _ _ _ _ _ _ | EvPlayerJoined g _ _ | EvPlayerLeft g _ _
  | EvEnded g _ _ | EvMove g _ _ _ _ => Some g
  end.

(** The same for the frames of the hub with a queue. *)
Definition qevent_gameId (e : QueueHub.QEvent) : option string :=
  match e with
  | QueueHub.EvQueueStatus _ _ | QueueHub.EvGamesList _ => None
  | QueueHub.EvMatched g _ _ _ _ _ => Some g
  | QueueHub.EvOther e' => event_gameId e'
  end.

Inductive SubInput :=
| Subscribe (key : string) (l : Listener)
| Unsubscribe (key : string) (l : Listener).

Definition sub_step (listeners : gmap string (list Listener)) (i : SubInput)
    : gmap string (list Listener) :=
  match i with
  | Subscribe key l => subscribe listeners key l
  | Unsubscribe key l => unsubscribe listeners key l
  end.

(** [setState(newState)]: the new state and whether the state listeners
    are called. *)
Definition setState (state newState : ConnectionState)
    : ConnectionState * list ConnectionState :=
  if bool_decide (state ≠ newState) then (newState, [newState])
  else (state, []).

Fixpoint setStates (state : ConnectionState)
    (calls : list ConnectionState)
    : ConnectionState * list ConnectionState :=
  match calls with
  | [] => (state, [])
  | s :: calls' =>
      let '(s1, out1) := setState state s in
      let '(s2, out2) := setStates s1 calls' in
      (s2, out1 ++ out2)
  end.

Definition maxReconnectAttempts : nat := 5.
Definition reconnectDelay : Z := 1000.

(** [attemptReconnect()]: the new count and the delay of the timer it
    sets, if it sets one. *)
Definition attemptReconnect (reconnectAttempts : nat) : nat * option Z :=
  if bool_decide (maxReconnectAttempts ≤ reconnectAttempts)%nat then
    (reconnectAttempts, None)
  else
    let attempts := S reconnectAttempts in
    (attempts, Some (reconnectDelay * 2 ^ (Z.of_nat attempts - 1))%Z).

(** The socket closes [n] times in a row without opening in between:
    the final count and the delays of the timers set. *)
Fixpoint closes_in_a_row (n : nat) (reconnectAttempts : nat)
    : nat * list Z :=
  match n with
  | O => (reconnectAttempts, [])
  | S n' =>
      let '(a1, d) := attemptReconnect reconnectAttempts in
      let '(a2, ds) := closes_in_a_row n' a1 in
      (a2, option_list d ++ ds)
  end.

End ClientUI.

(** * Verification *)

(** ** Position strings *)

Lemma split_space_cons (s : string) :
  ∃ f fs, split_space s = f :: fs.
Proof.
  induction s as [|c rest IH]; simpl; [by eauto|].
  destruct (Ascii.eqb c " "); [by eauto|].
  destruct IH as (f & fs & ->). by eauto.
Qed.

Lemma split_space_field (a t : string) :
  no_space a = true →
  split_space (String.append a (String " " t)) = a :: split_space t.
Proof.
  induction a as [|c a IH]; simpl; intros Ha; [done|].
  apply andb_prop in Ha as [Hc Ha].
  apply negb_true_iff in Hc. rewrite Hc, (IH Ha). done.
Qed.

Lemma split_space_last (a : string) :
  no_space a = true → split_space a = [a].
Proof.
  induction a as [|c a IH]; simpl; intros Ha; [done|].
  apply andb_prop in Ha as [Hc Ha].
  apply negb_true_iff in Hc. rewrite Hc, (IH Ha). done.
Qed.

(** The first field and what follows it. *)
Lemma split_space_inv (s f : string) (fs : list string) :
  split_space s = f :: fs →
  no_space f = true ∧
  ((fs = [] ∧ s = f) ∨
   (∃ t, s = String.append f (String " " t) ∧ fs = split_space t)).
Proof.
  revert f fs. induction s as [|c rest IH]; simpl; intros f fs H.
  - inversion H; subst. split; [done|]. by left.
  - destruct (Ascii.eqb c " ") eqn:Hc.
    + apply Ascii.eqb_eq in Hc. inversion H; subst.
      split; [done|]. right. by exists rest.
    + destruct (split_space rest) as [|f' fs'] eqn:Hr.
      * destruct (split_space_cons rest) as (? & ? & ?). congruence.
      * inversion H; subst. destruct (IH _ _ eq_refl) as [Hf' Hcase].
        split; [simpl; by rewrite Hc, Hf'|].
        destruct Hcase as [[-> ->]|(t & -> & ->)]; [by left|].
        right. by exists t.
Qed.

(** [split(" ")] and [join(" ")] are inverse on its image, and every
    field is free of spaces: this fixes [split_space]. *)
Lemma join_split_space (s : string) : join_space (split_space s) = s.
Proof.
  induction s as [|c rest IH]; simpl; [done|].
  destruct (split_space_cons rest) as (f & fs & Hr).
  rewrite Hr in *.
  destruct (Ascii.eqb c " ") eqn:Hc.
  - apply Ascii.eqb_eq in Hc. subst c.
    change (join_space (EmptyString :: f :: fs))
      with (String " " (join_space (f :: fs))).
    by rewrite IH.
  - destruct fs as [|g fs].
    + simpl in *. by rewrite IH.
    + change (join_space (String c f :: g :: fs))
        with (String c (String.append f (String " " (join_space (g :: fs))))).
      change (join_space (f :: g :: fs))
        with (String.append f (String " " (join_space (g :: fs)))) in IH.
      by rewrite IH.
Qed.

Lemma split_space_fields (s : string) :
  Forall (fun f => no_space f = true) (split_space s).
Proof.
  induction s as [|c rest IH]; simpl.
  - by repeat constructor.
  - destruct (Ascii.eqb c " ") eqn:Hc; [by constructor|].
    destruct (split_space rest) as [|f fs]; [by repeat constructor; simpl; rewrite Hc|].
    inversion IH; subst. constructor; [simpl; by rewrite Hc|done].
Qed.

(** C10.  Side-to-move derivation is a total function on strings that
    defaults to white: it answers black exactly when the second
    space-separated field is ["b"], that is when the string is a first
    field, a space, the letter b and then either nothing or a space and
    anything; it answers white for every other string, among them the
    strings with fewer than two fields. *)
Theorem getActiveColorFromFEN_defaults_to_white (fen : string) :
  (getActiveColorFromFEN fen = black
   ↔ split_space fen !! 1%nat = Some "b"%string)
  ∧ (getActiveColorFromFEN fen = white
     ↔ split_space fen !! 1%nat ≠ Some "b"%string)
  ∧ (getActiveColorFromFEN fen = black
     ↔ ∃ a, no_space a = true
          ∧ (fen = String.append a " b"
             ∨ ∃ rest, fen = String.append a (String.append " b " rest)))
  ∧ (length (split_space fen) < 2 → getActiveColorFromFEN fen = white).
Proof.
  assert (Hb : getActiveColorFromFEN fen = black
               ↔ split_space fen !! 1%nat = Some "b"%string).
  { unfold getActiveColorFromFEN.
    destruct (split_space fen !! 1%nat) as [f|]; [|by split].
    destruct (String.eqb f "b") eqn:Hf.
    - apply String.eqb_eq in Hf. by subst.
    - apply String.eqb_neq in Hf. split; [done|]. intros [=]. done. }
  split; [exact Hb|]. split; [|split].
  - rewrite <- Hb. destruct (getActiveColorFromFEN fen); split; congruence.
  - rewrite Hb. split.
    + destruct (split_space fen) as [|a fs] eqn:Hs; [done|].
      intros H1. destruct (split_space_inv _ _ _ Hs) as [Ha Hcase].
      exists a. split; [done|].
      destruct Hcase as [[-> _]|(t & -> & ->)]; [done|].
      destruct (split_space t) as [|b fs'] eqn:Ht; [done|].
      simpl in H1. injection H1 as ->.
      destruct (split_space_inv _ _ _ Ht) as [_ [[_ ->]|(t' & -> & _)]].
      * by left.
      * right. by exists t'.
    + intros (a & Ha & [->| (rest & ->)]).
      * by rewrite (split_space_field a "b" Ha).
      * change (String.append " b " rest)
          with (String " " (String.append "b" (String " " rest))).
        rewrite (split_space_field a _ Ha).
        by rewrite (split_space_field "b" rest eq_refl).
  - intros Hlen. unfold getActiveColorFromFEN.
    destruct (split_space fen) as [|a [|b fs]]; simpl in *; [done|done|lia].
Qed.

Lemma getActiveColorFromFEN_defaults_to_white_witness :
  getActiveColorFromFEN "8/8/8/8/8/8/8/8" = white
  ∧ getActiveColorFromFEN AFTER_E4 = black.
Proof.
  destruct (getActiveColorFromFEN_defaults_to_white "8/8/8/8/8/8/8/8")
    as (_ & _ & _ & Hshort).
  destruct (getActiveColorFromFEN_defaults_to_white AFTER_E4)
    as (Hblack & _).
  split.
  - apply Hshort. simpl. lia.
  - apply Hblack. reflexivity.
Defined.

(** ** Dispatch of [socket.on("message")] *)

Lemma on_message_create ready games client (m : Msg) uuid :
  m_type m = Some "create"%string →
  Hub.on_message ready games client (Some m) uuid
  = Hub.on_create ready games client m uuid.
Proof. intros H. unfold Hub.on_message, type_is. by rewrite H. Qed.

Lemma on_message_join ready games client (m : Msg) uuid :
  m_type m = Some "join"%string →
  Hub.on_message ready games client (Some m) uuid
  = Hub.on_join ready games client m.
Proof. intros H. unfold Hub.on_message, type_is. by rewrite H. Qed.

Lemma on_message_end ready games client (m : Msg) uuid :
  m_type m = Some "end"%string →
  Hub.on_message ready games client (Some m) uuid
  = Hub.on_end ready games client m.
Proof. intros H. unfold Hub.on_message, type_is. by rewrite H. Qed.

Lemma on_message_move ready games client (m : Msg) uuid k mv :
  m_type m = Some "move"%string → m_gameId m = Some k → m_move m = Some mv →
  Hub.on_message ready games client (Some m) uuid
  = Hub.on_move ready games client mv.
Proof.
  intros H Hk Hmv. unfold Hub.on_message, isMoveMessage, type_is.
  by rewrite H, Hk, Hmv.
Qed.

Lemma if_truthy_Some (o : option string) (s : string) :
  if_truthy o = Some s ↔ o = Some s ∧ s ≠ EmptyString.
Proof.
  unfold if_truthy, truthy. destruct o as [[|c r]|]; split;
    try (intros [[=] ?]; subst; done); try done.
  intros [=]; subst. done.
Qed.

(** A broadcast without exclusion writes one frame to every socket of the
    audience that is open, in the order of the audience. *)
Lemma broadcast_all ready game ev :
  Hub.broadcast ready game ev None
  = map (fun s => (s, ev)) (List.filter ready (Hub.audience game)).
Proof.
  unfold Hub.broadcast. induction (Hub.audience game) as [|s l IH]; [done|].
  cbn [flat_map List.filter map]. rewrite IH.
  rewrite bool_decide_eq_false_2 by done.
  unfold Hub.safeSend. by destruct (ready s).
Qed.

(** ** Seat colour of a request *)

Lemma normalizeColor_black (p : option string) :
  normalizeColor p = black ↔ p = Some "black"%string.
Proof.
  unfold normalizeColor. destruct p as [p|]; [|done].
  destruct (String.eqb p "black") eqn:H.
  - apply String.eqb_eq in H. by subst.
  - apply String.eqb_neq in H. split; [done|]. by intros [=].
Qed.

(** C9.  The seat colour requested by a create or join message is black
    exactly when [preferredColor] is the string ["black"], and white for
    every other value, the absent field included.  A create seats its
    sender in that colour and leaves the other seat empty; a join gives
    its sender that colour whenever that seat is free. *)
Theorem preferred_color_normalized ready (games : gmap string Game)
    (client : Client) (m : Msg) (uuid : string) :
  let color := normalizeColor (m_preferredColor m) in
  (color = black ↔ m_preferredColor m = Some "black"%string)
  ∧ (color = white ↔ m_preferredColor m ≠ Some "black"%string)
  ∧ (∀ gid,
       gid = default (createGameId uuid) (if_truthy (m_gameId m)) →
       games !! gid = None →
       let r := Hub.on_create ready games client m uuid in
       ∃ g, r_games r !! gid = Some g
            ∧ holds_seat g color (c_id client)
            ∧ player_at (g_players g) (other_color color) = None
            ∧ c_color (r_client r) = Some color)
  ∧ (∀ key g,
       m_gameId m = Some key → games !! key = Some g →
       player_at (g_players g) color = None →
       let r := Hub.on_join ready games client m in
       ∃ g', r_games r !! key = Some g'
             ∧ holds_seat g' color (c_id client)
             ∧ c_color (r_client r) = Some color).
Proof.
  intros color. split; [apply normalizeColor_black|]. split; [|split].
  - rewrite <- normalizeColor_black. fold color.
    destruct color; split; congruence.
  - intros gid -> Hfree r. subst r. unfold Hub.on_create.
    rewrite Hfree. fold color. simpl. rewrite lookup_insert_eq.
    eexists. split; [done|]. unfold holds_seat. simpl.
    split; [by destruct color|]. split; [by destruct color|done].
  - intros key g Hkey Hg Hslot r. subst r. unfold Hub.on_join.
    rewrite Hkey. simpl. rewrite Hg. simpl. fold color.
    unfold Hub.assignedColor, Hub.slotIsFree.
    rewrite bool_decide_eq_true_2 by done. simpl.
    rewrite lookup_insert_eq. eexists. split; [done|].
    unfold holds_seat. simpl. split; [by destruct color|done].
Qed.

Lemma preferred_color_normalized_witness :
  normalizeColor (Some "Black"%string) = white
  ∧ ∃ g, r_games (Hub.on_create always_open ∅ (new_client 1 "u1")
                    (msg_create (Some "a"%string) (Some "black"%string)) some_uuid)
           !! "a"%string = Some g
         ∧ holds_seat g black "u1".
Proof.
  pose proof (preferred_color_normalized always_open ∅ (new_client 1 "u1")
                (msg_create (Some "a"%string) (Some "Black"%string)) some_uuid)
    as (_ & Hw & _).
  pose proof (preferred_color_normalized always_open ∅ (new_client 1 "u1")
                (msg_create (Some "a"%string) (Some "black"%string)) some_uuid)
    as (_ & _ & Hc & _).
  split.
  - apply Hw. simpl. intros [=].
  - destruct (Hc "a"%string eq_refl (lookup_empty _)) as (g & Hg & Hs & _).
    by exists g.
Defined.

(** ** Ending a game *)

Lemma world_insert_same (w : World) (s : Socket) (client : Client) :
  conns w !! s = Some client →
  {| games := games w; conns := <[s := client]> (conns w) |} = w.
Proof. intros H. destruct w as [gs cs]. simpl in *. by rewrite insert_id. Qed.

(** C8.  An end message from a connection whose recorded room identifier
    maps to no room is dropped: the handler writes no frame, neither an
    error nor anything else, and the rooms and the connection are left as
    they were. *)
Theorem end_on_unknown_room_is_silent (ready : Socket → bool) (w : World)
    (s : Socket) (client : Client) (gid : string) (m : Msg) (uuid : string) :
  conns w !! s = Some client →
  c_gameId client = Some gid → gid ≠ EmptyString →
  games w !! gid = None →
  m_type m = Some "end"%string →
  Hub.on_message ready (games w) client (Some m) uuid
  = {| r_games := games w; r_client := client; r_sent := [] |}
  ∧ step w {| t_ready := ready; t_input := Receive s (Some m) uuid |}
    = (w, []).
Proof.
  intros Hc Hgid Hne Hnone Hm.
  assert (Hr : Hub.on_message ready (games w) client (Some m) uuid
               = {| r_games := games w; r_client := client; r_sent := [] |}).
  { rewrite on_message_end by done. unfold Hub.on_end.
    rewrite (proj2 (if_truthy_Some _ gid)) by done. by rewrite Hnone. }
  split; [exact Hr|].
  unfold step. cbn [t_input t_ready]. rewrite Hc, Hr.
  cbn [r_games r_client r_sent]. by rewrite world_insert_same.
Qed.

Lemma end_on_unknown_room_is_silent_witness :
  let lost :=
    {| c_id := "u1"; c_socket := 1; c_name := None; c_color := None;
       c_gameId := Some "gone"%string; c_viewer := None |} in
  let w := {| games := ∅; conns := {[ 1 := lost ]} |} in
  step w (tick (Receive 1 (Some (msg_end (Some resignation))) some_uuid)) = (w, []).
Proof.
  intros lost w.
  apply (end_on_unknown_room_is_silent always_open w 1 lost "gone"
           (msg_end (Some resignation)) some_uuid).
  - reflexivity.
  - reflexivity.
  - intros [=].
  - reflexivity.
  - reflexivity.
Defined.

(** The caller of the counterexample below holds no seat: it observes. *)
Lemma full_table_room :
  games full_table !! "a"%string
  = Some
      {| g_id := "a"; g_fen := START_FEN; g_status := active;
         g_players :=
           {| p_white :=
                Some {| c_id := "u1"; c_socket := 1; c_name := None;
                        c_color := Some white; c_gameId := None;
                        c_viewer := None |};
              p_black :=
                Some {| c_id := "u2"; c_socket := 2; c_name := None;
                        c_color := Some black; c_gameId := Some "a"%string;
                        c_viewer := Some false |} |};
         g_watchers := [3]; g_moves := []; g_result := None |}.
Proof. by vm_compute. Qed.

(** C5, as stated, fails: socket 3 only observes room ["a"], and its end
    request is not refused.  The room becomes ended, the result is stored
    and both players and the observer are told. *)
Lemma observer_ends_the_game :
  conns full_table !! 3
  = Some {| c_id := "u3"; c_socket := 3; c_name := None; c_color := None;
            c_gameId := Some "a"%string; c_viewer := Some true |}
  ∧ (∀ g color, games full_table !! "a"%string = Some g →
                ¬ holds_seat g color "u3")
  ∧ (step full_table (tick (Receive 3 (Some (msg_end (Some resignation))) some_uuid))).2
    = [(1, EvEnded "a" (Some resignation) START_FEN);
       (2, EvEnded "a" (Some resignation) START_FEN);
       (3, EvEnded "a" (Some resignation) START_FEN)]
  ∧ (g_status <$>
       games (step full_table
                (tick (Receive 3 (Some (msg_end (Some resignation))) some_uuid))).1
       !! "a"%string)
    = Some ended.
Proof.
  split; [by vm_compute|]. split; [|split; by vm_compute].
  intros g color. rewrite full_table_room. intros [= <-].
  unfold holds_seat. destruct color; simpl; intros [=].
Qed.

(** C5, amended.  An end request fails with the not-in-a-game error
    exactly when its sender has no recorded room, that is when it never
    created or joined one.  When the recorded room exists, whether the
    sender holds a seat in it or only observes it, the room's status
    becomes ended, the result is stored on the room, nothing else in the
    room changes, and an ended event with the result and the position is
    written to every open socket among the two seats and the observers. *)
Theorem end_is_open_to_every_member (ready : Socket → bool)
    (games : gmap string Game) (client : Client) (m : Msg) :
  let r := Hub.on_end ready games client m in
  (if_truthy (c_gameId client) = None →
   r = Hub.reply_error ready games client "Not in a game")
  ∧ (∀ gid game,
       if_truthy (c_gameId client) = Some gid → games !! gid = Some game →
       r_games r
       = <[gid := {| g_id := g_id game; g_fen := g_fen game;
                     g_status := ended; g_players := g_players game;
                     g_watchers := g_watchers game; g_moves := g_moves game;
                     g_result := m_result m |}]> games
       ∧ r_client r = client
       ∧ r_sent r
         = map (fun s => (s, EvEnded (g_id game) (m_result m) (g_fen game)))
             (List.filter ready (Hub.audience game)))
  ∧ (ready (c_socket client) = true →
     ((c_socket client, EvError "Not in a game") ∈ r_sent r
      ↔ if_truthy (c_gameId client) = None)).
Proof.
  intros r. subst r. unfold Hub.on_end. split; [|split].
  - by intros ->.
  - intros gid game -> ->. simpl. by rewrite broadcast_all.
  - intros Hready. destruct (if_truthy (c_gameId client)) as [gid|] eqn:Hg.
    + split; [|done]. destruct (games !! gid) as [game|]; simpl.
      * rewrite broadcast_all. intros H.
        apply list_elem_of_fmap in H as (s & [=] & _).
      * by intros H%elem_of_nil.
    + split; [done|]. intros _. unfold Hub.reply_error, Hub.safeSend. simpl.
      rewrite Hready. by apply list_elem_of_here.
Qed.

Lemma end_is_open_to_every_member_witness :
  ∃ observer game,
    conns full_table !! 3 = Some observer
    ∧ games full_table !! "a"%string = Some game
    ∧ r_sent (Hub.on_end always_open (games full_table) observer
                (msg_end (Some resignation)))
      = [(1, EvEnded "a" (Some resignation) START_FEN);
         (2, EvEnded "a" (Some resignation) START_FEN);
         (3, EvEnded "a" (Some resignation) START_FEN)]
    ∧ (1, EvError "Not in a game")
      ∈ r_sent (Hub.on_end always_open (games full_table) (new_client 1 "u1")
                  (msg_end None)).
Proof.
  eexists _, _. split; [by vm_compute|]. split; [apply full_table_room|].
  split.
  - pose proof (end_is_open_to_every_member always_open (games full_table)
                  {| c_id := "u3"; c_socket := 3; c_name := None;
                     c_color := None; c_gameId := Some "a"%string;
                     c_viewer := Some true |} (msg_end (Some resignation)))
      as (_ & H & _).
    destruct (H "a"%string _ eq_refl full_table_room) as (_ & _ & ->).
    reflexivity.
  - apply (end_is_open_to_every_member always_open (games full_table)
             (new_client 1 "u1") (msg_end None)); reflexivity.
Defined.

(** ** Moves *)

Lemma one_seated_room :
  games one_seated !! "a"%string
  = Some
      {| g_id := "a"; g_fen := START_FEN; g_status := waiting;
         g_players :=
           {| p_white :=
                Some {| c_id := "u1"; c_socket := 1; c_name := None;
                        c_color := Some white; c_gameId := None;
                        c_viewer := None |};
              p_black := None |};
         g_watchers := []; g_moves := []; g_result := None |}.
Proof. by vm_compute. Qed.

Lemma one_seated_conn :
  conns one_seated !! 1
  = Some {| c_id := "u1"; c_socket := 1; c_name := None;
            c_color := Some white; c_gameId := Some "a"%string;
            c_viewer := None |}.
Proof. by vm_compute. Qed.

(** C1, as stated, fails: socket 1 holds the white seat of room ["a"],
    white is to move, and yet its move, which carries no position, is
    neither accepted nor answered with the not-your-turn error. *)
Lemma seated_mover_without_position_is_refused :
  (∃ g, games one_seated !! "a"%string = Some g
        ∧ holds_seat g white "u1"
        ∧ getActiveColorFromFEN (g_fen g) = white)
  ∧ step one_seated (tick (Receive 1 (Some (msg_move "a" (pawn_move None))) some_uuid))
    = (one_seated, [(1, EvError "Move is missing FEN")]).
Proof.
  split.
  - eexists. split; [apply one_seated_room|]. by vm_compute.
  - by vm_compute.
Qed.

Lemma with_move_changes_log (game : Game) fen mv :
  g_moves (with_move game fen mv) ≠ g_moves game.
Proof.
  simpl. intros H. apply (f_equal length) in H.
  rewrite length_app in H. simpl in H. lia.
Qed.

(** C1, amended.  Take a move message from a connection whose recorded
    room exists and whose recorded colour is exactly the seat it holds
    there.  The move is accepted (position replaced by the submitted one,
    record appended, a move event written to every open socket of the
    room) if and only if the connection holds the seat of the side to
    move, as derived from the room's position string, and the move carries
    a position.  Otherwise nothing changes and the sender is answered with
    one error: not-your-turn when it holds the other seat, missing-position
    when it holds the right seat but the move carries no position, and
    join-a-game-first when it holds no seat. *)
Theorem move_accepted_iff_turn_and_position (ready : Socket → bool)
    (games : gmap string Game) (client : Client) (m : Msg) (k : string)
    (mv : MoveData) (gid : string) (game : Game) (uuid : string) :
  m_type m = Some "move"%string → m_gameId m = Some k → m_move m = Some mv →
  if_truthy (c_gameId client) = Some gid →
  games !! gid = Some game →
  (∀ color, c_color client = Some color
            ↔ holds_seat game color (c_id client)) →
  let r := Hub.on_message ready games client (Some m) uuid in
  let turn := getActiveColorFromFEN (g_fen game) in
  (∀ fen,
     holds_seat game turn (c_id client) → if_truthy (FEN mv) = Some fen →
     r_games r
     = <[gid := {| g_id := g_id game; g_fen := fen;
                   g_status := g_status game; g_players := g_players game;
                   g_watchers := g_watchers game;
                   g_moves := g_moves game ++ [mv];
                   g_result := g_result game |}]> games
     ∧ r_client r = client
     ∧ r_sent r
       = map (fun s => (s, EvMove (g_id game) mv fen
                             (getActiveColorFromFEN fen) turn))
           (List.filter ready (Hub.audience game)))
  ∧ (holds_seat game (other_color turn) (c_id client) →
     r = Hub.reply_error ready games client "Not your turn")
  ∧ (holds_seat game turn (c_id client) → if_truthy (FEN mv) = None →
     r = Hub.reply_error ready games client "Move is missing FEN")
  ∧ ((∀ color, ¬ holds_seat game color (c_id client)) →
     r = Hub.reply_error ready games client "Join a game first")
  ∧ ((∃ g', r_games r !! gid = Some g' ∧ g_moves g' = g_moves game ++ [mv])
     ↔ holds_seat game turn (c_id client) ∧ truthy (FEN mv) = true).
Proof.
  intros Hm Hk Hmv Hgid Hgame Hseat r turn. subst r.
  rewrite (on_message_move _ _ _ _ _ k mv) by done.
  unfold Hub.on_move. rewrite Hgid, Hgame. fold turn.
  assert (Hnone : if_truthy (FEN mv) = None → truthy (FEN mv) = false).
  { unfold if_truthy. by destruct (FEN mv) as [[|??]|]. }
  assert (Hsome : ∀ fen, if_truthy (FEN mv) = Some fen → truthy (FEN mv) = true).
  { unfold if_truthy. by destruct (FEN mv) as [[|??]|]. }
  destruct (c_color client) as [color|] eqn:Hcol.
  - assert (Hmine : holds_seat game color (c_id client)) by by apply Hseat.
    assert (Honly : ∀ c, holds_seat game c (c_id client) → c = color).
    { intros c Hc. apply Hseat in Hc. congruence. }
    destruct (decide (turn = color)) as [<-|Hne].
    + rewrite bool_decide_eq_false_2 by (intros H; by apply H).
      destruct (if_truthy (FEN mv)) as [fen|] eqn:Hfen.
      * cbn [r_games r_client r_sent]. rewrite broadcast_all.
        split; [by intros ? _ [= <-]|].
        split; [intros H%Honly; by destruct turn|].
        split; [done|]. split; [intros H; by destruct (H turn)|].
        split; [by eauto|]. intros _.
        rewrite lookup_insert_eq. by eexists.
      * split; [done|].
        split; [intros H%Honly; by destruct turn|].
        split; [done|]. split; [intros H; by destruct (H turn)|].
        cbn [r_games Hub.reply_error]. rewrite Hgame, (Hnone eq_refl).
        split; [|by intros [_ ?]].
        intros (g' & [= <-] & H). symmetry in H.
        by apply (with_move_changes_log game EmptyString mv) in H.
    + rewrite bool_decide_eq_true_2 by done.
      split; [intros fen H%Honly; congruence|].
      split; [done|]. split; [intros H%Honly; congruence|].
      split; [intros H; by destruct (H color)|].
      cbn [r_games Hub.reply_error]. rewrite Hgame.
      split; [|intros [H%Honly _]; congruence].
      intros (g' & [= <-] & H). symmetry in H.
      by apply (with_move_changes_log game EmptyString mv) in H.
  - assert (Hno : ∀ c, ¬ holds_seat game c (c_id client)).
    { intros c Hc. apply Hseat in Hc. congruence. }
    split; [intros fen H; by destruct (Hno _ H)|].
    split; [intros H; by destruct (Hno _ H)|].
    split; [intros H; by destruct (Hno _ H)|].
    split; [done|].
    cbn [r_games Hub.reply_error]. rewrite Hgame.
    split; [|intros [H _]; by destruct (Hno _ H)].
    intros (g' & [= <-] & H). symmetry in H.
    by apply (with_move_changes_log game EmptyString mv) in H.
Qed.

Lemma move_accepted_iff_turn_and_position_witness :
  ∃ seated game,
    conns one_seated !! 1 = Some seated
    ∧ games one_seated !! "a"%string = Some game
    ∧ r_sent (Hub.on_message always_open (games one_seated) seated
                (Some (msg_move "a" (pawn_move (Some AFTER_E4)))) some_uuid)
      = [(1, EvMove "a" (pawn_move (Some AFTER_E4)) AFTER_E4 black white)].
Proof.
  eexists _, _. split; [apply one_seated_conn|].
  split; [apply one_seated_room|].
  edestruct (move_accepted_iff_turn_and_position always_open
               (games one_seated)
               {| c_id := "u1"; c_socket := 1; c_name := None;
                  c_color := Some white; c_gameId := Some "a"%string;
                  c_viewer := None |}
               (msg_move "a" (pawn_move (Some AFTER_E4))) "a"
               (pawn_move (Some AFTER_E4)) "a" _ some_uuid
               eq_refl eq_refl eq_refl eq_refl one_seated_room)
    as (H & _).
  - intros color. unfold holds_seat. destruct color; simpl; split; congruence.
  - destruct (H AFTER_E4) as (_ & _ & ->); reflexivity.
Defined.

Lemma ended_table_room :
  games ended_table !! "a"%string
  = Some
      {| g_id := "a"; g_fen := START_FEN; g_status := ended;
         g_players :=
           {| p_white :=
                Some {| c_id := "u1"; c_socket := 1; c_name := None;
                        c_color := Some white; c_gameId := None;
                        c_viewer := None |};
              p_black := None |};
         g_watchers := []; g_moves := [];
         g_result := Some resignation |}.
Proof. by vm_compute. Qed.

(** C3, as stated, fails: room ["a"] is ended, and the move that its white
    player sends next is accepted.  The position and the move log change
    and a move event is written. *)
Lemma move_on_ended_room_is_accepted :
  (g_status <$> games ended_table !! "a"%string) = Some ended
  ∧ let after :=
      step ended_table
        (tick (Receive 1 (Some (msg_move "a" (pawn_move (Some AFTER_E4)))) some_uuid))
    in
    after.2 = [(1, EvMove "a" (pawn_move (Some AFTER_E4)) AFTER_E4 black white)]
    ∧ (g_fen <$> games after.1 !! "a"%string) = Some AFTER_E4
    ∧ (g_moves <$> games after.1 !! "a"%string)
      = Some [pawn_move (Some AFTER_E4)].
Proof. by vm_compute. Qed.

Lemma alter_lookup_insert (games : gmap string Game) gid game f :
  games !! gid = Some game → alter f gid games = <[gid := f game]> games.
Proof.
  intros H. apply map_eq. intros j. rewrite lookup_alter, lookup_insert.
  case_decide; [subst; by rewrite H|done].
Qed.

(** C3, amended.  The move handler does not look at the status of the
    room.  On an ended room a move message is refused, with an error
    event to the sender and nothing changed, only for the reasons that
    hold in any room: the sender has no recorded colour, it is not the
    turn of that colour, or the move carries no position.  A move of the
    colour to move that carries a position is accepted: the position is
    replaced, the record appended to the log, a move event written to
    every open socket of the room, and the status stays ended.  Whatever
    the status of the room had been instead, the frames written and the
    changes to the room would have been the same. *)
Theorem move_on_ended_room_is_not_gated (ready : Socket → bool)
    (games : gmap string Game) (client : Client) (mv : MoveData)
    (gid : string) (game : Game) :
  if_truthy (c_gameId client) = Some gid →
  games !! gid = Some game →
  g_status game = ended →
  let r := Hub.on_move ready games client mv in
  let turn := getActiveColorFromFEN (g_fen game) in
  (∀ fen,
     c_color client = Some turn → if_truthy (FEN mv) = Some fen →
     r_games r
     = <[gid := {| g_id := g_id game; g_fen := fen; g_status := ended;
                   g_players := g_players game;
                   g_watchers := g_watchers game;
                   g_moves := g_moves game ++ [mv];
                   g_result := g_result game |}]> games
     ∧ r_client r = client
     ∧ r_sent r
       = map (fun s => (s, EvMove (g_id game) mv fen
                             (getActiveColorFromFEN fen) turn))
           (List.filter ready (Hub.audience game)))
  ∧ (c_color client ≠ Some turn ∨ if_truthy (FEN mv) = None →
     r_games r = games ∧ r_client r = client
     ∧ ∃ message,
         r_sent r = Hub.safeSend ready (c_socket client) (EvError message))
  ∧ (∀ st,
       let r' :=
         Hub.on_move ready (<[gid := with_status game st]> games) client mv in
       r_sent r' = r_sent r ∧ r_client r' = r_client r
       ∧ r_games r' = alter (fun g => with_status g st) gid (r_games r)).
Proof.
  intros Hgid Hgame Hended r turn. subst r. unfold Hub.on_move.
  rewrite Hgid, Hgame. fold turn. split; [|split].
  - intros fen -> ->. rewrite bool_decide_eq_false_2 by (intros H; by apply H).
    cbn [r_games r_client r_sent]. rewrite broadcast_all.
    unfold with_move. by rewrite Hended.
  - intros Hrej. destruct (c_color client) as [color|]; [|by eauto].
    destruct (decide (turn = color)) as [<-|Hne].
    + rewrite bool_decide_eq_false_2 by (intros H; by apply H).
      destruct Hrej as [?| ->]; [done|]. by eauto.
    + rewrite bool_decide_eq_true_2 by done. by eauto.
  - intros st. rewrite lookup_insert_eq.
    cbn [g_fen with_status]. fold turn.
    destruct (c_color client) as [color|].
    2:{ cbn [r_sent r_client r_games Hub.reply_error].
        by rewrite (alter_lookup_insert _ _ _ _ Hgame). }
    destruct (bool_decide (turn ≠ color)).
    { cbn [r_sent r_client r_games Hub.reply_error].
      by rewrite (alter_lookup_insert _ _ _ _ Hgame). }
    destruct (if_truthy (FEN mv)) as [fen|].
    + cbn [r_sent r_client r_games].
      rewrite insert_insert_eq, alter_insert_eq. done.
    + cbn [r_sent r_client r_games Hub.reply_error].
      by rewrite (alter_lookup_insert _ _ _ _ Hgame).
Qed.

Lemma move_on_ended_room_is_not_gated_witness :
  r_sent (Hub.on_move always_open (games ended_table)
            {| c_id := "u1"; c_socket := 1; c_name := None;
               c_color := Some white; c_gameId := Some "a"%string;
               c_viewer := None |}
            (pawn_move (Some AFTER_E4)))
  = [(1, EvMove "a" (pawn_move (Some AFTER_E4)) AFTER_E4 black white)].
Proof.
  edestruct (move_on_ended_room_is_not_gated always_open (games ended_table)
               {| c_id := "u1"; c_socket := 1; c_name := None;
                  c_color := Some white; c_gameId := Some "a"%string;
                  c_viewer := None |}
               (pawn_move (Some AFTER_E4)) "a" _ eq_refl ended_table_room
               eq_refl)
    as (H & _).
  destruct (H AFTER_E4) as (_ & _ & ->); reflexivity.
Defined.

(** ** Status and seats *)

Lemma seat_status_active (ps : Players) :
  seat_status ps = active ↔ is_Some (p_white ps) ∧ is_Some (p_black ps).
Proof.
  unfold seat_status, both_seated.
  destruct (p_white ps), (p_black ps); split; try done;
    intros [[? [=]] [? [=]]] || (intros _; split; by eauto).
Qed.

Lemma seat_status_not_ended (ps : Players) : seat_status ps ≠ ended.
Proof. unfold seat_status. by destruct (both_seated ps). Qed.

(** A join keeps, in every room, the status in step with the seats. *)
Lemma on_join_status ready (games : gmap string Game) client m gid g :
  games !! gid = Some g →
  (g_status g = active ↔ both_occupied g) →
  ∃ g', r_games (Hub.on_join ready games client m) !! gid = Some g'
        ∧ (g_status g' = active ↔ both_occupied g').
Proof.
  intros Hg Hinv. unfold Hub.on_join.
  destruct (m_gameId m) as [key|]; simpl; [|by eauto].
  destruct (games !! key) as [game|] eqn:Hkey; simpl; [|by eauto].
  destruct (decide (key = gid)) as [->|Hne].
  - assert (game = g) as -> by congruence.
    destruct (Hub.assignedColor g _) as [col|]; simpl;
      rewrite lookup_insert_eq; eexists; (split; [done|]).
    + apply seat_status_active.
    + exact Hinv.
  - destruct (Hub.assignedColor game _); simpl;
      rewrite lookup_insert_ne by done; by eauto.
Qed.

Lemma step_join_status (w : World) (t : Tick) gid g :
  is_join t = true →
  games w !! gid = Some g →
  (g_status g = active ↔ both_occupied g) →
  ∃ g', games (step w t).1 !! gid = Some g'
        ∧ (g_status g' = active ↔ both_occupied g').
Proof.
  unfold is_join, step. destruct t as [ready [s uuid|s [m|] uuid|s]];
    simpl; try done.
  intros Hj Hg Hinv. destruct (conns w !! s) as [client|]; simpl; [|by eauto].
  unfold Hub.on_message. destruct (type_is m "ping") eqn:Hping.
  { unfold type_is in *. destruct (m_type m) as [t|]; [|done].
    apply String.eqb_eq in Hping, Hj. congruence. }
  destruct (type_is m "create") eqn:Hcreate.
  { unfold type_is in *. destruct (m_type m) as [t|]; [|done].
    apply String.eqb_eq in Hcreate, Hj. congruence. }
  rewrite Hj. exact (on_join_status _ _ _ _ _ _ Hg Hinv).
Qed.

Lemma run_joins_status (joins : list Tick) (w : World) gid g :
  forallb is_join joins = true →
  games w !! gid = Some g →
  (g_status g = active ↔ both_occupied g) →
  ∃ g', games (run w joins).1 !! gid = Some g'
        ∧ (g_status g' = active ↔ both_occupied g').
Proof.
  revert w g. induction joins as [|t joins IH]; simpl; intros w g Hall Hg Hinv.
  - by eauto.
  - apply andb_prop in Hall as [Ht Hall].
    destruct (step_join_status w t gid g Ht Hg Hinv) as (g1 & Hg1 & Hinv1).
    destruct (step w t) as [w1 out1] eqn:Hstep. simpl in Hg1.
    destruct (IH w1 g1 Hall Hg1 Hinv1) as (g2 & Hg2 & Hinv2).
    destruct (run w1 joins) as [w2 out2]. simpl in *. by eauto.
Qed.

(** C4.  Take a room at the moment a create message has made it, and any
    sequence of join messages after that, from any connections and with
    any preferences: at the end of the sequence, hence at every instant
    of it, the room's status is active if and only if its white seat and
    its black seat are both occupied.  The fresh room itself is waiting
    and has exactly one seat taken. *)
Theorem status_active_iff_both_seats_after_joins (ready : Socket → bool)
    (w : World) (s : Socket) (client : Client) (m : Msg) (uuid : string)
    (joins : list Tick) :
  conns w !! s = Some client →
  m_type m = Some "create"%string →
  let gid := default (createGameId uuid) (if_truthy (m_gameId m)) in
  games w !! gid = None →
  forallb is_join joins = true →
  let created :=
    (step w {| t_ready := ready; t_input := Receive s (Some m) uuid |}).1 in
  (∃ g0, games created !! gid = Some g0
         ∧ g_status g0 = waiting ∧ ¬ both_occupied g0)
  ∧ ∃ g, games (run created joins).1 !! gid = Some g
         ∧ (g_status g = active ↔ both_occupied g).
Proof.
  intros Hc Hm gid Hfree Hall created.
  assert (Hfresh : ∃ g0, games created !! gid = Some g0
                         ∧ g_status g0 = waiting ∧ ¬ both_occupied g0).
  { subst created. unfold step. cbn [t_input t_ready]. rewrite Hc.
    rewrite on_message_create by done. unfold Hub.on_create.
    fold gid. rewrite Hfree. cbn [fst r_games games].
    rewrite lookup_insert_eq. eexists. split; [done|]. split; [done|].
    unfold both_occupied. cbn [g_players].
    destruct (normalizeColor (m_preferredColor m)); simpl;
      intros [[? [=]] [? [=]]]. }
  split; [exact Hfresh|].
  destruct Hfresh as (g0 & Hg0 & Hwait & Hnot).
  apply (run_joins_status joins created gid g0 Hall Hg0).
  rewrite Hwait. split; [done|]. intros H. by destruct (Hnot H).
Qed.

Lemma status_active_iff_both_seats_after_joins_witness :
  ∃ g, games
         (run (step two_strangers
                 (tick (Receive 1 (Some (msg_create (Some "a"%string) None)) some_uuid))).1
            [tick (Receive 2 (Some (msg_join (Some "a"%string) None)) some_uuid);
             tick (Receive 1 (Some (msg_join (Some "a"%string) None)) some_uuid)]).1
       !! "a"%string = Some g
       ∧ (g_status g = active ↔ both_occupied g).
Proof.
  apply (status_active_iff_both_seats_after_joins always_open two_strangers 1
           (new_client 1 "u1") (msg_create (Some "a"%string) None) some_uuid
           [tick (Receive 2 (Some (msg_join (Some "a"%string) None)) some_uuid);
            tick (Receive 1 (Some (msg_join (Some "a"%string) None)) some_uuid)]);
    reflexivity.
Defined.

(** ** Leaving a room *)

(** Whatever the status of the room of a closing connection was, ended
    included, it is recomputed from the seats alone. *)
Lemma removeClientFromGame_status ready (games : gmap string Game) client
    gid game :
  if_truthy (c_gameId client) = Some gid →
  games !! gid = Some game →
  ∃ g', (Hub.removeClientFromGame ready games client).1 !! gid = Some g'
        ∧ g_status g' = seat_status (g_players g')
        ∧ g_status g' ≠ ended.
Proof.
  intros Hgid Hgame. unfold Hub.removeClientFromGame.
  rewrite Hgid, Hgame. cbn [fst]. rewrite lookup_insert_eq.
  eexists. split; [done|]. cbn [g_status with_status g_players].
  split; [done|]. apply seat_status_not_ended.
Qed.

(** A join that takes a seat does the same. *)
Lemma on_join_seat_status ready (games : gmap string Game) client m key game
    col :
  m_gameId m = Some key →
  games !! key = Some game →
  Hub.assignedColor game (normalizeColor (m_preferredColor m)) = Some col →
  ∃ g', r_games (Hub.on_join ready games client m) !! key = Some g'
        ∧ g_status g' = seat_status (g_players g')
        ∧ g_status g' ≠ ended.
Proof.
  intros Hkey Hgame Hcol. unfold Hub.on_join.
  rewrite Hkey. simpl. rewrite Hgame. simpl. rewrite Hcol.
  cbn [r_games]. rewrite lookup_insert_eq. eexists. split; [done|].
  cbn [g_status with_status g_players]. split; [done|].
  apply seat_status_not_ended.
Qed.

(** The close of a connection touches no room but the one its [client]
    object names, the last one it created or joined. *)
Lemma removeClientFromGame_other_rooms ready (games : gmap string Game)
    client gid k :
  if_truthy (c_gameId client) = Some gid → k ≠ gid →
  (Hub.removeClientFromGame ready games client).1 !! k = games !! k.
Proof.
  intros Hgid Hne. unfold Hub.removeClientFromGame. rewrite Hgid.
  destruct (games !! gid); [|done]. cbn [fst]. by rewrite lookup_insert_ne.
Qed.

(** X26.  The close of a connection changes no room other than the one
    its record names, the last it created or joined: a seat or an observer
    entry it still has in any other room stays as it is, while the
    connection itself is gone. *)
Lemma close_keeps_other_rooms (w : World) (t : Tick) (s : Socket) client k :
  t_input t = Close s →
  conns w !! s = Some client →
  if_truthy (c_gameId client) ≠ Some k →
  games (step w t).1 !! k = games w !! k ∧ conns (step w t).1 !! s = None.
Proof.
  intros Ht Hc Hk. unfold step. rewrite Ht, Hc.
  destruct (Hub.removeClientFromGame _ (games w) client) as [gs out] eqn:Hr.
  cbn [fst games conns]. split; [|apply lookup_delete_eq].
  change gs with (gs, out).1. rewrite <- Hr.
  destruct (if_truthy (c_gameId client)) as [gid|] eqn:Hgid.
  - apply removeClientFromGame_other_rooms with (gid := gid); congruence.
  - unfold Hub.removeClientFromGame. by rewrite Hgid.
Qed.

(** C2.  The code breaks the claim.  Room ["a"] has been ended by its
    white player.  When that player then disconnects, the status of the
    room is waiting again; when instead a second player joins, the status
    becomes active.  In both cases the stored result is still there. *)
Theorem ended_status_is_overwritten :
  (g_status <$> games ended_table !! "a"%string) = Some ended
  ∧ (let left := (step ended_table (tick (Close 1))).1 in
     (g_status <$> games left !! "a"%string) = Some waiting
     ∧ (g_result <$> games left !! "a"%string) = Some (Some resignation))
  ∧ (let joined :=
       (run ended_table
          [tick (Connect 2 "u2");
           tick (Receive 2 (Some (msg_join (Some "a"%string) None)) some_uuid)]).1 in
     (g_status <$> games joined !! "a"%string) = Some active
     ∧ (g_result <$> games joined !! "a"%string) = Some (Some resignation)).
Proof. by vm_compute. Qed.

(** C6.  The code breaks the claim.  Socket 1 sits as white in room
    ["a"], creates room ["b"] and disconnects.  Only room ["b"], the last
    one it entered, is cleaned: the white seat of room ["a"] still holds
    the connection that is gone, and the seat summary of that room still
    reports white as connected. *)
Theorem closed_connection_keeps_earlier_seat :
  conns abandoned_seat !! 1 = None
  ∧ (games abandoned_seat !! "a"%string ≫= fun g => p_white (g_players g))
    = Some {| c_id := "u1"; c_socket := 1; c_name := None;
              c_color := Some white; c_gameId := None; c_viewer := None |}
  ∧ (buildPlayers <$> games abandoned_seat !! "a"%string)
    = Some [{| pi_color := white; pi_name := None; pi_connected := true |};
            {| pi_color := black; pi_name := None; pi_connected := false |}]
  ∧ (games abandoned_seat !! "b"%string ≫= fun g => p_white (g_players g))
    = None.
Proof. by vm_compute. Qed.

(** ** Matchmaking *)

(** C7, as stated, fails on the hub of [server/game-server.js]: it has no
    queue message.  Two connections that each send one are each answered
    with an error, no room is made and nothing else changes. *)
Lemma queue_is_unknown_to_the_hub :
  run two_strangers
    [tick (Receive 1 (Some msg_queue) "0a1b2c3d-0000");
     tick (Receive 2 (Some msg_queue) "4e5f6a7b-0000")]
  = (two_strangers,
     [(1, EvError "Unknown message type");
      (2, EvError "Unknown message type")])
  ∧ games two_strangers = ∅.
Proof. by vm_compute. Qed.

Lemma map_get_set (m : list (string * Game)) k g :
  QueueHub.map_get (QueueHub.map_set m k g) k = Some g.
Proof.
  induction m as [|[k' g'] m IH]; simpl.
  - by rewrite String.eqb_refl.
  - destruct (String.eqb k' k) eqn:H; simpl.
    + by rewrite String.eqb_refl.
    + by rewrite H.
Qed.

Lemma on_message_queue ready games client (m : Msg) uuid :
  m_type m = Some "queue"%string →
  Hub.on_message ready games client (Some m) uuid
  = Hub.reply_error ready games client "Unknown message type".
Proof.
  intros H. unfold Hub.on_message, isMoveMessage, type_is. by rewrite H.
Qed.

(** C7, amended.  In the hub that has a matchmaking queue, when a client
    sends a queue message while the queue is empty it waits, and when a
    second client then sends one the two are matched, provided both
    sockets are open at that moment: each is sent a matched event, the two
    events name the same room and give complementary colours, that room
    is stored in active status with the two clients in those seats, and
    the queue is empty again.  The hub of [server/game-server.js] has no
    queue: it answers a queue message with the unknown-message error and
    changes nothing. *)
Theorem queued_pair_is_matched (ready_a ready_b : Socket → bool)
    (wss_a wss_b : list Socket) (games_a games_b : list (string * Game))
    (a b : QueueHub.QClient) (ma mb : Msg) (now_a now_b : Z)
    (coin_a coin_b : bool) (uuid_a uuid_b : string) :
  ready_b (c_socket (QueueHub.q_client a)) = true →
  ready_b (c_socket (QueueHub.q_client b)) = true →
  let ra :=
    QueueHub.on_queue ready_a wss_a games_a [] a ma now_a coin_a uuid_a in
  let rb :=
    QueueHub.on_queue ready_b wss_b games_b (QueueHub.qr_queue ra) b mb
      now_b coin_b uuid_b in
  let gid := createGameId uuid_b in
  let color := QueueHub.randomColor coin_b in
  (QueueHub.qr_games ra = games_a ∧ length (QueueHub.qr_queue ra) = 1)
  ∧ (∃ g,
       QueueHub.map_get (QueueHub.qr_games rb) gid = Some g
       ∧ g_status g = active
       ∧ holds_seat g color (c_id (QueueHub.q_client a))
       ∧ holds_seat g (other_color color) (c_id (QueueHub.q_client b))
       ∧ (c_socket (QueueHub.q_client a),
          QueueHub.EvMatched gid color START_FEN active (buildPlayers g) true)
         ∈ QueueHub.qr_sent rb
       ∧ (c_socket (QueueHub.q_client b),
          QueueHub.EvMatched gid (other_color color) START_FEN active
            (buildPlayers g) true)
         ∈ QueueHub.qr_sent rb)
  ∧ QueueHub.qr_queue rb = []
  ∧ (∀ ready games client m uuid,
       m_type m = Some "queue"%string →
       Hub.on_message ready games client (Some m) uuid
       = Hub.reply_error ready games client "Unknown message type").
Proof.
  intros Ha Hb ra rb gid color. subst ra rb.
  unfold QueueHub.on_queue. cbn [app QueueHub.qr_queue QueueHub.qr_games].
  split; [done|]. split; [|split; [done|]].
  - cbn [QueueHub.qr_sent QueueHub.q_socket QueueHub.clientId].
    fold gid color. eexists. split; [apply map_get_set|].
    split; [done|]. unfold holds_seat. cbn [g_players].
    split; [by destruct color|]. split; [by destruct color|].
    unfold QueueHub.safeSend. rewrite Ha, Hb. cbv iota.
    split.
    + apply elem_of_app. right. apply elem_of_app. left.
      apply list_elem_of_here.
    + apply elem_of_app. right. apply elem_of_app. right.
      apply elem_of_app. left. apply list_elem_of_here.
  - intros. by apply on_message_queue.
Qed.

Lemma queued_pair_is_matched_witness :
  let a := {| QueueHub.q_client := new_client 1 "u1";
              QueueHub.inQueue := None; QueueHub.tempSlot := None |} in
  let b := {| QueueHub.q_client := new_client 2 "u2";
              QueueHub.inQueue := None; QueueHub.tempSlot := None |} in
  let ra := QueueHub.on_queue always_open [1; 2] [] [] a msg_queue 10 true
              "0a1b2c3d-0000" in
  let rb := QueueHub.on_queue always_open [1; 2] [] (QueueHub.qr_queue ra) b
              msg_queue 20 false "4e5f-6a7b-0000" in
  QueueHub.qr_queue rb = []
  ∧ (QueueHub.gs_id <$> QueueHub.gamesList (QueueHub.qr_games rb))
    = ["4e5f6a7b"%string].
Proof.
  intros a b ra rb.
  pose proof (queued_pair_is_matched always_open always_open [1; 2] [1; 2]
                [] [] a b msg_queue msg_queue 10 20 true false
                "0a1b2c3d-0000" "4e5f-6a7b-0000" eq_refl eq_refl)
    as (_ & _ & H & _).
  split; [exact H|reflexivity].
Defined.

(** ** The status along runs without an end message

    The end handler is the only one that writes a status other than the
    one computed from the seats.  As long as no end message arrives, every
    room of the hub has status active exactly when both seats are taken. *)

Lemma on_create_follows ready games client m uuid :
  status_follows_seats games →
  status_follows_seats (r_games (Hub.on_create ready games client m uuid)).
Proof.
  intros Hinv. unfold Hub.on_create.
  destruct (games !! _); [done|]. cbn [r_games].
  apply map_Forall_insert_2; [|done]. cbn [g_status g_players].
  split; [done|]. unfold both_occupied.
  destruct (normalizeColor _); simpl; intros [[? [=]] [? [=]]].
Qed.

Lemma on_join_follows ready games client m :
  status_follows_seats games →
  status_follows_seats (r_games (Hub.on_join ready games client m)).
Proof.
  intros Hinv. unfold Hub.on_join.
  destruct (m_gameId m) as [key|]; simpl; [|done].
  destruct (games !! key) as [game|] eqn:Hkey; simpl; [|done].
  destruct (Hub.assignedColor game _) as [col|]; cbn [r_games];
    (apply map_Forall_insert_2; [|done]).
  - apply seat_status_active.
  - exact (Hinv _ _ Hkey).
Qed.

Lemma on_move_follows ready games client mv :
  status_follows_seats games →
  status_follows_seats (r_games (Hub.on_move ready games client mv)).
Proof.
  intros Hinv. unfold Hub.on_move.
  destruct (if_truthy (c_gameId client)) as [gid|]; [|done].
  destruct (c_color client) as [color|]; [|done].
  destruct (games !! gid) as [game|] eqn:Hg; [|done].
  destruct (bool_decide _); [done|].
  destruct (if_truthy (FEN mv)); [|done]. cbn [r_games].
  apply map_Forall_insert_2; [|done]. exact (Hinv _ _ Hg).
Qed.

Lemma removeClientFromGame_follows ready games client :
  status_follows_seats games →
  status_follows_seats (Hub.removeClientFromGame ready games client).1.
Proof.
  intros Hinv. unfold Hub.removeClientFromGame.
  destruct (if_truthy (c_gameId client)) as [gid|]; [|done].
  destruct (games !! gid) as [game|]; [|done]. cbn [fst].
  apply map_Forall_insert_2; [|done]. apply seat_status_active.
Qed.

Lemma step_follows (w : World) (t : Tick) :
  is_end t = false →
  status_follows_seats (games w) →
  status_follows_seats (games (step w t).1).
Proof.
  unfold is_end, step. destruct t as [ready [s uuid|s parsed uuid|s]];
    cbn [t_input t_ready]; intros Hend Hinv.
  - by destruct (conns w !! s).
  - destruct (conns w !! s) as [client|]; [|done]. cbn [fst games].
    destruct parsed as [m|]; [|done]. unfold Hub.on_message.
    destruct (type_is m "ping"); [done|].
    destruct (type_is m "create"); [by apply on_create_follows|].
    destruct (type_is m "join"); [by apply on_join_follows|].
    rewrite Hend. destruct (isMoveMessage m); [|done].
    by apply on_move_follows.
  - destruct (conns w !! s) as [client|]; [|done].
    pose proof (removeClientFromGame_follows (closed_for s ready) (games w)
                  client Hinv) as H.
    by destruct (Hub.removeClientFromGame _ (games w) client).
Qed.

Lemma run_without_end_follows (ts : list Tick) (w : World) :
  forallb (fun t => negb (is_end t)) ts = true →
  status_follows_seats (games w) →
  status_follows_seats (games (run w ts).1).
Proof.
  revert w. induction ts as [|t ts IH]; simpl; intros w Hall Hinv; [done|].
  apply andb_prop in Hall as [Ht Hall]. apply negb_true_iff in Ht.
  pose proof (step_follows w t Ht Hinv) as H1.
  destruct (step w t) as [w1 out1]. simpl in H1.
  pose proof (IH w1 Hall H1) as H2.
  by destruct (run w1 ts) as [w2 out2].
Qed.

Lemma status_follows_seats_from_start (ts : list Tick) gid g :
  forallb (fun t => negb (is_end t)) ts = true →
  games (run empty_world ts).1 !! gid = Some g →
  (g_status g = active ↔ both_occupied g).
Proof.
  intros Hall Hg.
  exact (run_without_end_follows ts empty_world Hall (map_Forall_empty _) _ _ Hg).
Qed.

(** * Further properties of the hub *)

(** ** Room identifiers *)

Lemma remove_dashes_no_dash (s : string) : no_dash (remove_dashes s) = true.
Proof.
  induction s as [|c s IH]; simpl; [done|].
  destruct (Ascii.eqb c "-") eqn:Hc; simpl; [done|]. by rewrite Hc.
Qed.

Lemma remove_dashes_clean (a rest : string) :
  no_dash a = true →
  remove_dashes (String.append a rest) = String.append a (remove_dashes rest).
Proof.
  induction a as [|c a IH]; simpl; intros Ha; [done|].
  apply andb_prop in Ha as [Hc Ha]. apply negb_true_iff in Hc.
  by rewrite Hc, (IH Ha).
Qed.

Lemma substring_length (n : nat) (s : string) :
  String.length (String.substring 0 n s) = Nat.min n (String.length s).
Proof.
  revert s. induction n as [|n IH]; intros [|c s]; simpl; try done.
  by rewrite IH.
Qed.

Lemma substring_prefix (n : nat) (s : string) :
  ∃ rest, s = String.append (String.substring 0 n s) rest.
Proof.
  revert s. induction n as [|n IH]; intros [|c s]; simpl;
    try (by eexists).
  destruct (IH s) as [rest Hrest]. exists rest. rewrite Hrest at 1. done.
Qed.

Lemma substring_no_dash (n : nat) (s : string) :
  no_dash s = true → no_dash (String.substring 0 n s) = true.
Proof.
  revert s. induction n as [|n IH]; intros [|c s]; simpl; try done.
  intros H. apply andb_prop in H as [Hc Hs]. by rewrite Hc, (IH s Hs).
Qed.

Lemma substring_app (a rest : string) :
  String.substring 0 (String.length a) (String.append a rest) = a.
Proof.
  induction a as [|c a IH]; simpl; [by destruct rest|]. by rewrite IH.
Qed.

(** X1.  A generated room identifier is the drawn UUID without its dashes,
    cut after eight characters: it contains no dash, it is at most eight
    characters long, and exactly eight when the UUID has that many
    characters besides dashes.  When the UUID starts with eight characters
    that are not dashes, as every UUID does, the identifier is those eight
    characters, so it is never the empty string. *)
Theorem createGameId_shape (uuid : string) :
  String.length (createGameId uuid)
  = Nat.min 8 (String.length (remove_dashes uuid))
  ∧ no_dash (createGameId uuid) = true
  ∧ (∃ rest, remove_dashes uuid = String.append (createGameId uuid) rest)
  ∧ (∀ a rest,
       String.length a = 8 → no_dash a = true →
       uuid = String.append a rest →
       createGameId uuid = a ∧ if_truthy (Some a) = Some a).
Proof.
  unfold createGameId. split; [apply substring_length|].
  split; [apply substring_no_dash, remove_dashes_no_dash|].
  split; [apply substring_prefix|].
  intros a rest Hlen Ha ->. rewrite remove_dashes_clean by done.
  rewrite <- Hlen at 1. rewrite substring_app. split; [done|].
  by destruct a.
Qed.

Lemma createGameId_shape_witness : createGameId some_uuid = "3f2a9c1e"%string.
Proof.
  destruct (createGameId_shape some_uuid) as (_ & _ & _ & H).
  apply (H "3f2a9c1e"%string "-7b4d-4e8a-9c0d-5a6b7c8d9e0f"%string);
    reflexivity.
Defined.

(** ** Frames *)

Lemma broadcast_filter ready game ev exclude :
  Hub.broadcast ready game ev exclude
  = map (fun s => (s, ev))
      (List.filter
         (fun s => negb (bool_decide (exclude = Some s)) && ready s)
         (Hub.audience game)).
Proof.
  unfold Hub.broadcast. induction (Hub.audience game) as [|s l IH]; [done|].
  cbn [flat_map List.filter]. rewrite IH. unfold Hub.safeSend.
  by destruct (bool_decide (exclude = Some s)), (ready s).
Qed.

Lemma elem_of_safeSend ready socket payload (f : Sent) :
  f ∈ Hub.safeSend ready socket payload
  ↔ f = (socket, payload) ∧ ready socket = true.
Proof.
  unfold Hub.safeSend. destruct (ready socket).
  - rewrite list_elem_of_singleton. split; [by intros ->|by intros [-> _]].
  - rewrite elem_of_nil. split; [done|by intros [_ ?]].
Qed.

Lemma elem_of_broadcast ready game ev exclude (s : Socket) (e : Event) :
  (s, e) ∈ Hub.broadcast ready game ev exclude
  ↔ e = ev ∧ ready s = true ∧ exclude ≠ Some s ∧ s ∈ Hub.audience game.
Proof.
  rewrite broadcast_filter, list_elem_of_fmap. split.
  - intros (x & [= -> ->] & Hx). apply list_elem_of_In, filter_In in Hx.
    destruct Hx as [Hin Hb]. apply andb_prop in Hb as [Hex Hr].
    apply negb_true_iff, bool_decide_eq_false in Hex.
    by rewrite list_elem_of_In.
  - intros (-> & Hr & Hex & Hin). exists s. split; [done|].
    apply list_elem_of_In, filter_In. split; [by apply list_elem_of_In|].
    by rewrite Hr, bool_decide_eq_false_2.
Qed.

Lemma elem_of_audience (game : Game) (s : Socket) :
  s ∈ Hub.audience game
  ↔ c_socket <$> p_white (g_players game) = Some s
    ∨ c_socket <$> p_black (g_players game) = Some s
    ∨ s ∈ g_watchers game.
Proof.
  unfold Hub.audience. rewrite !elem_of_app.
  destruct (p_white (g_players game)) as [w|],
           (p_black (g_players game)) as [b|]; simpl;
    rewrite ?list_elem_of_singleton, ?elem_of_nil; intuition congruence.
Qed.

(** X2.  A broadcast writes its payload, and nothing else, to exactly the
    sockets that sit in the white seat, in the black seat or among the
    observers of the room, are open, and are not the excluded socket.  It
    writes at most one frame for each seat and each observer. *)
Theorem broadcast_reaches_exactly (ready : Socket → bool) (game : Game)
    (ev : Event) (exclude : option Socket) (s : Socket) (e : Event) :
  ((s, e) ∈ Hub.broadcast ready game ev exclude
   ↔ e = ev ∧ ready s = true ∧ exclude ≠ Some s
     ∧ (c_socket <$> p_white (g_players game) = Some s
        ∨ c_socket <$> p_black (g_players game) = Some s
        ∨ s ∈ g_watchers game))
  ∧ length (Hub.broadcast ready game ev exclude)
    ≤ 2 + length (g_watchers game).
Proof.
  split; [by rewrite elem_of_broadcast, elem_of_audience|].
  rewrite broadcast_filter, length_map.
  etransitivity; [apply filter_length_le|].
  unfold Hub.audience. rewrite !length_app.
  destruct (p_white (g_players game)), (p_black (g_players game)); simpl; lia.
Qed.

(** ** Errors *)

Ltac error_frame H :=
  let Hr := fresh "Hr" in
  unfold Hub.reply_error in *; cbn [r_games r_client r_sent] in *;
  apply elem_of_safeSend in H as [[= -> ->] Hr];
  unfold Hub.safeSend; by rewrite Hr.

Ltac other_frame H :=
  first
    [ by apply elem_of_nil in H
    | by apply elem_of_safeSend in H as [[=] ?]
    | by apply elem_of_broadcast in H as [[=] ?]
    | apply elem_of_app in H as [H|H];
      [by apply elem_of_safeSend in H as [[=] ?]
      |by apply elem_of_broadcast in H as [[=] ?]] ].

(** X3.  Whenever the reply to an inbound frame contains an error event,
    that error is the whole reply: it is the only frame written, it goes
    to the sender, and neither the rooms nor the sender's connection
    record have changed.  No handler fails half-way. *)
Theorem error_reply_changes_nothing (ready : Socket → bool)
    (games : gmap string Game) (client : Client) (parsed : option Msg)
    (uuid : string) (s : Socket) (message : string) :
  let r := Hub.on_message ready games client parsed uuid in
  (s, EvError message) ∈ r_sent r →
  r_games r = games ∧ r_client r = client
  ∧ r_sent r = [(c_socket client, EvError message)] ∧ s = c_socket client.
Proof.
  intros r H. subst r. unfold Hub.on_message in *.
  destruct parsed as [m|]; [|error_frame H].
  destruct (type_is m "ping"); [other_frame H|].
  destruct (type_is m "create").
  { unfold Hub.on_create in *. destruct (games !! _); [error_frame H|].
    other_frame H. }
  destruct (type_is m "join").
  { unfold Hub.on_join in *.
    destruct (m_gameId m ≫= _) as [[key game]|]; [|error_frame H].
    destruct (Hub.assignedColor game _); cbn [r_sent] in H; other_frame H. }
  destruct (type_is m "end").
  { unfold Hub.on_end in *.
    destruct (if_truthy (c_gameId client)) as [gid|]; [|error_frame H].
    destruct (games !! gid); cbn [r_sent] in H; other_frame H. }
  destruct (isMoveMessage m) as [mv|]; [|error_frame H].
  unfold Hub.on_move in *.
  destruct (if_truthy (c_gameId client)) as [gid|]; [|error_frame H].
  destruct (c_color client) as [color|]; [|error_frame H].
  destruct (games !! gid) as [game|]; [|error_frame H].
  destruct (bool_decide _); [error_frame H|].
  destruct (if_truthy (FEN mv)); [|error_frame H].
  cbn [r_sent] in H. other_frame H.
Qed.

Lemma error_reply_changes_nothing_witness :
  (Hub.on_message always_open (games full_table) (new_client 9 "u9") None
     some_uuid)
  = {| r_games := games full_table; r_client := new_client 9 "u9";
       r_sent := [(9, EvError "Bad JSON payload")] |}.
Proof.
  destruct (error_reply_changes_nothing always_open (games full_table)
              (new_client 9 "u9") None some_uuid 9 "Bad JSON payload")
    as (Hg & Hc & Hs & _).
  - apply list_elem_of_here.
  - destruct (Hub.on_message _ _ _ _ _). simpl in *. by subst.
Defined.

(** ** Creating and joining *)

(** X4.  A create request never changes a room that exists: when the
    identifier it asks for is taken, the reply is the already-exists error
    and nothing else happens.  When it is free, one room is added under
    that identifier: it starts from the initial position, in waiting
    status, with an empty move log, no observers and no result, with the
    creator in the seat of the requested colour and the other seat empty;
    the creator's record now names the room and the colour, and the
    creator is sent the session of that room. *)
Theorem create_never_touches_existing_rooms (ready : Socket → bool)
    (games : gmap string Game) (client : Client) (m : Msg) (uuid : string) :
  let gid := default (createGameId uuid) (if_truthy (m_gameId m)) in
  let color := normalizeColor (m_preferredColor m) in
  let r := Hub.on_create ready games client m uuid in
  (∀ k g, games !! k = Some g → r_games r !! k = Some g)
  ∧ (is_Some (games !! gid) →
     r = Hub.reply_error ready games client "Game already exists")
  ∧ (games !! gid = None →
     (∀ k, k ≠ gid → r_games r !! k = games !! k)
     ∧ ∃ g seat,
         r_games r !! gid = Some g
         ∧ g_id g = gid ∧ g_fen g = START_FEN ∧ g_status g = waiting
         ∧ g_watchers g = [] ∧ g_moves g = [] ∧ g_result g = None
         ∧ player_at (g_players g) color = Some seat
         ∧ player_at (g_players g) (other_color color) = None
         ∧ c_id seat = c_id client ∧ c_socket seat = c_socket client
         ∧ c_name seat = m_playerName m ∧ c_color seat = Some color
         ∧ r_client r
           = {| c_id := c_id client; c_socket := c_socket client;
                c_name := m_playerName m; c_color := Some color;
                c_gameId := Some gid; c_viewer := c_viewer client |}
         ∧ r_sent r
           = Hub.safeSend ready (c_socket client)
               (EvSession gid (Some color) None START_FEN waiting
                  (buildPlayers g) None)).
Proof.
  intros gid color r. subst r. unfold Hub.on_create. fold gid color.
  destruct (games !! gid) as [g0|] eqn:Hgid.
  - split; [done|]. split; [done|]. by intros [=].
  - split.
    { intros k g Hk. cbn [r_games].
      rewrite lookup_insert_ne; [done|]. intros <-. congruence. }
    split; [by intros [? [=]]|]. intros _. cbn [r_games r_client r_sent].
    split; [intros k Hk; by rewrite lookup_insert_ne|].
    rewrite lookup_insert_eq. clearbody color.
    destruct color; eexists _, _; (split; [done|]);
      cbn [g_id g_fen g_status g_watchers g_moves g_result g_players];
      by repeat (split; [done|]).
Qed.

Lemma create_never_touches_existing_rooms_witness :
  Hub.on_create always_open (games one_seated) (new_client 2 "u2")
    (msg_create (Some "a"%string) (Some "black"%string)) some_uuid
  = Hub.reply_error always_open (games one_seated) (new_client 2 "u2")
      "Game already exists"
  ∧ (g_status <$>
       r_games (Hub.on_create always_open (games one_seated)
                  (new_client 2 "u2") (msg_create None None) some_uuid)
       !! "3f2a9c1e"%string) = Some waiting.
Proof.
  split.
  - apply (create_never_touches_existing_rooms always_open (games one_seated)
             (new_client 2 "u2")
             (msg_create (Some "a"%string) (Some "black"%string)) some_uuid).
    eexists. apply one_seated_room.
  - destruct (create_never_touches_existing_rooms always_open
                (games one_seated) (new_client 2 "u2") (msg_create None None)
                some_uuid) as (_ & _ & H).
    destruct H as (_ & g & seat & Hg & _ & _ & Hst & _); [by vm_compute|].
    change (default (createGameId some_uuid)
              (if_truthy (m_gameId (msg_create None None))))
      with "3f2a9c1e"%string in Hg.
    by rewrite Hg, <- Hst.
Defined.

(** X5.  A join never takes a seat from anybody.  Every seat that was
    occupied keeps its occupant, and position, move log, result and
    identifier of the room, and all other rooms, stay as they are.  The
    joiner gets the seat of the colour it prefers when that seat is free,
    the other seat when only that one is free, and the status is then
    recomputed from the seats; when both seats are taken the joiner is
    added to the observers, keeps the colour it had on record, and seats
    and status are not touched.  In both cases the joiner's record names
    the room. *)
Theorem join_never_evicts (ready : Socket → bool) (games : gmap string Game)
    (client : Client) (m : Msg) (key : string) (game : Game) :
  m_gameId m = Some key → games !! key = Some game →
  let r := Hub.on_join ready games client m in
  let preferred := normalizeColor (m_preferredColor m) in
  ∃ game',
    r_games r !! key = Some game'
    ∧ (∀ k, k ≠ key → r_games r !! k = games !! k)
    ∧ (∀ color c, player_at (g_players game) color = Some c →
                  player_at (g_players game') color = Some c)
    ∧ g_id game' = g_id game ∧ g_fen game' = g_fen game
    ∧ g_moves game' = g_moves game ∧ g_result game' = g_result game
    ∧ c_id (r_client r) = c_id client
    ∧ c_socket (r_client r) = c_socket client
    ∧ c_gameId (r_client r) = Some (g_id game)
    ∧ c_name (r_client r) = m_playerName m
    ∧ ((∃ color,
          player_at (g_players game) color = None
          ∧ (player_at (g_players game) preferred = None → color = preferred)
          ∧ player_at (g_players game') color = Some (r_client r)
          ∧ c_color (r_client r) = Some color
          ∧ c_viewer (r_client r) = Some false
          ∧ g_watchers game' = g_watchers game
          ∧ g_status game' = seat_status (g_players game'))
       ∨ (both_occupied game
          ∧ g_players game' = g_players game
          ∧ g_status game' = g_status game
          ∧ g_watchers game'
            = watchers_add (g_watchers game) (c_socket client)
          ∧ c_viewer (r_client r) = Some true
          ∧ c_color (r_client r) = c_color client)).
Proof.
  intros Hkey Hgame r preferred. subst r. unfold Hub.on_join.
  rewrite Hkey. simpl. rewrite Hgame. simpl. fold preferred.
  assert (Hfree : ∀ c, Hub.slotIsFree game c = true
                       ↔ player_at (g_players game) c = None).
  { intros c. unfold Hub.slotIsFree. apply bool_decide_eq_true. }
  destruct (Hub.assignedColor game preferred) as [col|] eqn:Hcol;
    cbn [r_games r_client]; rewrite lookup_insert_eq; eexists;
    (split; [done|]); (split; [intros k Hk; by rewrite lookup_insert_ne|]).
  - assert (Hslot : player_at (g_players game) col = None
                    ∧ (player_at (g_players game) preferred = None
                       → col = preferred)).
    { unfold Hub.assignedColor in Hcol.
      destruct (Hub.slotIsFree game preferred) eqn:Hp.
      - injection Hcol as <-. by apply Hfree in Hp.
      - assert (player_at (g_players game) preferred ≠ None) as Hn.
        { intros H. apply Hfree in H. congruence. }
        destruct (Hub.slotIsFree game white) eqn:Hw.
        + injection Hcol as <-. by apply Hfree in Hw.
        + destruct (Hub.slotIsFree game black) eqn:Hb; [|done].
          injection Hcol as <-. by apply Hfree in Hb. }
    destruct Hslot as [Hnone Hpref].
    cbn [g_players with_status with_players g_id g_fen g_moves g_result
         g_watchers g_status c_id c_socket c_gameId c_name c_color c_viewer].
    split.
    { intros color c Hc. destruct col, color; simpl in *; congruence. }
    repeat (split; [done|]). left. exists col.
    split; [done|]. split; [done|]. split; [by destruct col|]. done.
  - cbn [g_players with_watchers g_id g_fen g_moves g_result
         g_watchers g_status c_id c_socket c_gameId c_name c_color c_viewer].
    repeat (split; [done|]). right.
    split; [|done]. unfold Hub.assignedColor in Hcol.
    destruct (Hub.slotIsFree game preferred); [done|].
    destruct (Hub.slotIsFree game white) eqn:Hw; [done|].
    destruct (Hub.slotIsFree game black) eqn:Hb; [done|].
    unfold Hub.slotIsFree in Hw, Hb. apply bool_decide_eq_false in Hw, Hb.
    simpl in Hw, Hb. unfold both_occupied.
    destruct (p_white (g_players game)), (p_black (g_players game)); by eauto.
Qed.

Lemma join_never_evicts_witness :
  ∃ game',
    r_games (Hub.on_join always_open (games one_seated) (new_client 2 "u2")
               (msg_join (Some "a"%string) (Some "white"%string)))
    !! "a"%string = Some game'
    ∧ (c_id <$> p_white (g_players game')) = Some "u1"%string.
Proof.
  destruct (join_never_evicts always_open (games one_seated)
              (new_client 2 "u2")
              (msg_join (Some "a"%string) (Some "white"%string)) "a" _
              eq_refl one_seated_room)
    as (game' & Hg & _ & Hkeep & _).
  exists game'. split; [exact Hg|].
  pose proof (Hkeep white _ eq_refl) as H. simpl in H. by rewrite H.
Defined.

Lemma on_join_shape ready (games : gmap string Game) client m key game :
  m_gameId m = Some key → games !! key = Some game →
  ∃ game' client',
    Hub.on_join ready games client m
    = {| r_games := <[key := game']> games;
         r_client := client';
         r_sent :=
           Hub.safeSend ready (c_socket client)
             (EvSession (g_id game') (c_color client') (c_viewer client')
                (g_fen game') (g_status game') (buildPlayers game')
                (g_result game'))
           ++ Hub.broadcast ready game'
                (EvPlayerJoined (g_id game') (buildPlayers game')
                   (g_status game'))
                (Some (c_socket client)) |}.
Proof.
  intros Hkey Hgame. unfold Hub.on_join. rewrite Hkey. simpl.
  rewrite Hgame. simpl.
  destruct (Hub.assignedColor game _); by eexists _, _.
Qed.

Lemma filter_broadcast_excluded ready game ev (socket : Socket) :
  List.filter (fun f : Sent => bool_decide (f.1 = socket))
    (Hub.broadcast ready game ev (Some socket)) = [].
Proof.
  rewrite broadcast_filter.
  induction (Hub.audience game) as [|s l IH]; [done|].
  cbn [List.filter]. destruct (bool_decide (Some socket = Some s)) eqn:Hs.
  - exact IH.
  - apply bool_decide_eq_false in Hs. destruct (ready s); [|exact IH].
    cbn [negb andb map List.filter fst].
    rewrite bool_decide_eq_false_2 by congruence. exact IH.
Qed.

(** X6.  Of the frames a join writes, the joiner receives only the
    session of the room, at most once, and never the player-joined event
    of its own arrival.  Every other open socket of the room, seats and
    observers alike, receives the player-joined event, and nothing else;
    it carries the same seat summary and status as the session, which are
    those of the room as it is stored after the join. *)
Theorem joiner_gets_session_only (ready : Socket → bool)
    (games : gmap string Game) (client : Client) (m : Msg) (key : string)
    (game : Game) :
  m_gameId m = Some key → games !! key = Some game →
  let r := Hub.on_join ready games client m in
  ∃ game',
    r_games r !! key = Some game'
    ∧ List.filter (fun f : Sent => bool_decide (f.1 = c_socket client))
        (r_sent r)
      = Hub.safeSend ready (c_socket client)
          (EvSession (g_id game') (c_color (r_client r))
             (c_viewer (r_client r)) (g_fen game') (g_status game')
             (buildPlayers game') (g_result game'))
    ∧ (∀ s e, s ≠ c_socket client →
         ((s, e) ∈ r_sent r
          ↔ e = EvPlayerJoined (g_id game') (buildPlayers game')
                  (g_status game')
            ∧ ready s = true ∧ s ∈ Hub.audience game')).
Proof.
  intros Hkey Hgame r. subst r.
  destruct (on_join_shape ready games client m key game Hkey Hgame)
    as (game' & client' & Hshape).
  exists game'. rewrite Hshape. cbn [r_games r_sent r_client].
  split; [apply lookup_insert_eq|]. split.
  - rewrite List.filter_app, filter_broadcast_excluded, app_nil_r.
    unfold Hub.safeSend. destruct (ready (c_socket client)); [|done].
    cbn [List.filter fst]. by rewrite bool_decide_eq_true_2.
  - intros s e Hs. rewrite elem_of_app, elem_of_safeSend, elem_of_broadcast.
    split.
    + intros [[[= ? ?] _]|(? & ? & _ & ?)]; [done|by eauto].
    + intros (-> & ? & ?). right. repeat split; try done. congruence.
Qed.

Lemma joiner_gets_session_only_witness :
  r_sent (Hub.on_join always_open (games one_seated) (new_client 2 "u2")
            (msg_join (Some "a"%string) None))
  = [(2, EvSession "a" (Some black) (Some false) START_FEN active
          [{| pi_color := white; pi_name := None; pi_connected := true |};
           {| pi_color := black; pi_name := None; pi_connected := true |}]
          None);
     (1, EvPlayerJoined "a"
          [{| pi_color := white; pi_name := None; pi_connected := true |};
           {| pi_color := black; pi_name := None; pi_connected := true |}]
          active)].
Proof.
  destruct (joiner_gets_session_only always_open (games one_seated)
              (new_client 2 "u2") (msg_join (Some "a"%string) None) "a" _
              eq_refl one_seated_room) as (game' & _ & _ & _).
  reflexivity.
Defined.

(** ** Moves in a row *)

(** X7.  The turn is enforced from the position the mover submits.  When
    a move is accepted and the position it carries gives the move to the
    other colour, a further move from the same connection is refused with
    the not-your-turn error and changes nothing, until the position of the
    room changes again. *)
Theorem second_move_in_a_row_is_refused (ready ready' : Socket → bool)
    (games : gmap string Game) (client : Client) (mv mv' : MoveData)
    (gid : string) (game : Game) (color : FigureColor) (fen : string) :
  if_truthy (c_gameId client) = Some gid →
  games !! gid = Some game →
  c_color client = Some color →
  getActiveColorFromFEN (g_fen game) = color →
  if_truthy (FEN mv) = Some fen →
  getActiveColorFromFEN fen ≠ color →
  let r := Hub.on_move ready games client mv in
  (g_fen <$> r_games r !! gid) = Some fen
  ∧ Hub.on_move ready' (r_games r) (r_client r) mv'
    = Hub.reply_error ready' (r_games r) client "Not your turn".
Proof.
  intros Hgid Hgame Hcol Hturn Hfen Hnext r.
  assert (Hr : r_games r = <[gid := with_move game fen mv]> games
               ∧ r_client r = client).
  { subst r. unfold Hub.on_move. rewrite Hgid, Hgame, Hcol, Hturn, Hfen.
    by rewrite bool_decide_eq_false_2 by (intros H; by apply H). }
  destruct Hr as [-> ->]. rewrite lookup_insert_eq. split; [done|].
  unfold Hub.on_move. rewrite Hgid, Hcol, lookup_insert_eq.
  cbn [g_fen with_move]. by rewrite bool_decide_eq_true_2.
Qed.

Lemma second_move_in_a_row_is_refused_witness :
  let white_player :=
    {| c_id := "u1"; c_socket := 1; c_name := None; c_color := Some white;
       c_gameId := Some "a"%string; c_viewer := None |} in
  let r := Hub.on_move always_open (games one_seated) white_player
             (pawn_move (Some AFTER_E4)) in
  r_sent (Hub.on_move always_open (r_games r) (r_client r)
            (pawn_move (Some START_FEN)))
  = [(1, EvError "Not your turn")].
Proof.
  intros white_player r.
  destruct (second_move_in_a_row_is_refused always_open always_open
              (games one_seated) white_player (pawn_move (Some AFTER_E4))
              (pawn_move (Some START_FEN)) "a" _ white AFTER_E4
              eq_refl one_seated_room eq_refl eq_refl eq_refl)
    as [_ H].
  - by vm_compute.
  - subst r. by rewrite H.
Defined.

(** ** Leaving *)

(** X8.  When a connection closes, exactly one of its memberships in the
    room it has on record is removed: the white seat if it holds it,
    otherwise the black seat if it holds it, otherwise its entry among the
    observers.  Nobody is added, position, move log and result stay, the
    status becomes the one computed from the remaining seats (waiting as
    soon as a seat was vacated), and every open socket still in the room
    is sent one player-left event with the new seat summary and status. *)
Theorem leave_removes_one_membership (ready : Socket → bool)
    (games : gmap string Game) (client : Client) (gid : string)
    (game : Game) :
  if_truthy (c_gameId client) = Some gid →
  games !! gid = Some game →
  let after := Hub.removeClientFromGame ready games client in
  ∃ g',
    after.1 !! gid = Some g'
    ∧ (∀ k, k ≠ gid → after.1 !! k = games !! k)
    ∧ g_id g' = g_id game ∧ g_fen g' = g_fen game
    ∧ g_moves g' = g_moves game ∧ g_result g' = g_result game
    ∧ g_status g' = seat_status (g_players g')
    ∧ after.2
      = map (fun s => (s, EvPlayerLeft (g_id game) (buildPlayers g')
                            (g_status g')))
          (List.filter ready (Hub.audience g'))
    ∧ ((holds_seat game white (c_id client)
        ∧ g_players g' = set_player (g_players game) white None
        ∧ g_watchers g' = g_watchers game ∧ g_status g' = waiting)
       ∨ (¬ holds_seat game white (c_id client)
          ∧ holds_seat game black (c_id client)
          ∧ g_players g' = set_player (g_players game) black None
          ∧ g_watchers g' = g_watchers game ∧ g_status g' = waiting)
       ∨ (¬ holds_seat game white (c_id client)
          ∧ ¬ holds_seat game black (c_id client)
          ∧ g_players g' = g_players game
          ∧ (c_socket client ∉ g_watchers g')
          ∧ ∀ s, s ≠ c_socket client →
                 (s ∈ g_watchers g' ↔ s ∈ g_watchers game))).
Proof.
  intros Hgid Hgame after. subst after. unfold Hub.removeClientFromGame.
  rewrite Hgid, Hgame. cbn [fst snd]. rewrite lookup_insert_eq.
  eexists. split; [done|].
  split; [intros k Hk; by rewrite lookup_insert_ne|].
  rewrite broadcast_all. unfold Hub.vacate, holds_seat.
  cbn [player_at].
  destruct (bool_decide (c_id <$> p_white (g_players game)
                         = Some (c_id client))) eqn:Hw.
  - apply bool_decide_eq_true in Hw.
    cbn [with_status with_players g_id g_fen g_moves g_result g_status
         g_players g_watchers].
    repeat (split; [done|]). left. repeat (split; [done|]).
    unfold seat_status, both_seated. simpl. done.
  - apply bool_decide_eq_false in Hw.
    destruct (bool_decide (c_id <$> p_black (g_players game)
                           = Some (c_id client))) eqn:Hb.
    + apply bool_decide_eq_true in Hb.
      cbn [with_status with_players g_id g_fen g_moves g_result g_status
           g_players g_watchers].
      repeat (split; [done|]). right. left. repeat (split; [done|]).
      unfold seat_status, both_seated. simpl.
      by destruct (p_white (g_players game)).
    + apply bool_decide_eq_false in Hb.
      cbn [with_status with_watchers g_id g_fen g_moves g_result g_status
           g_players g_watchers].
      repeat (split; [done|]). right. right. repeat (split; [done|]).
      unfold watchers_delete. split.
      * rewrite list_elem_of_filter. by intros [? _].
      * intros s Hs. rewrite list_elem_of_filter. by intuition.
Qed.

Lemma leave_removes_one_membership_witness :
  ∃ g',
    (Hub.removeClientFromGame always_open (games full_table)
       {| c_id := "u2"; c_socket := 2; c_name := None;
          c_color := Some black; c_gameId := Some "a"%string;
          c_viewer := Some false |}).1 !! "a"%string = Some g'
    ∧ g_status g' = waiting.
Proof.
  destruct (leave_removes_one_membership always_open (games full_table)
              {| c_id := "u2"; c_socket := 2; c_name := None;
                 c_color := Some black; c_gameId := Some "a"%string;
                 c_viewer := Some false |} "a" _ eq_refl full_table_room)
    as (g' & Hg & _ & _ & _ & _ & _ & _ & _ & Hcase).
  exists g'. split; [exact Hg|].
  destruct Hcase as [(H & _)|[(_ & _ & _ & _ & H)|(_ & H & _)]].
  - by vm_compute in H.
  - exact H.
  - destruct H. by vm_compute.
Defined.

(** ** Reachable worlds *)

Lemma on_message_rooms ready (games : gmap string Game) client parsed uuid :
  let r := Hub.on_message ready games client parsed uuid in
  (∀ k g, games !! k = Some g → g_id g = k) →
  (∀ k g color c, games !! k = Some g →
                  player_at (g_players g) color = Some c →
                  c_color c = Some color) →
  (∀ k g, r_games r !! k = Some g → g_id g = k)
  ∧ (∀ k g color c, r_games r !! k = Some g →
                    player_at (g_players g) color = Some c →
                    c_color c = Some color)
  ∧ (∀ k, is_Some (games !! k) → is_Some (r_games r !! k))
  ∧ c_socket (r_client r) = c_socket client
  ∧ (∀ gid, c_gameId (r_client r) = Some gid →
            c_gameId client = Some gid ∨ is_Some (r_games r !! gid)).
Proof.
  intros r Hid Hseat. subst r.
  assert (Hsame : (∀ k g, games !! k = Some g → g_id g = k)
             ∧ (∀ k g color c, games !! k = Some g →
                               player_at (g_players g) color = Some c →
                               c_color c = Some color)
             ∧ (∀ k, is_Some (games !! k) → is_Some (games !! k))
             ∧ c_socket client = c_socket client
             ∧ (∀ gid, c_gameId client = Some gid →
                       c_gameId client = Some gid ∨ is_Some (games !! gid))).
  { repeat split; by eauto. }
  assert (Hupd : ∀ gid game game' (client' : Client),
             games !! gid = Some game →
             g_id game' = g_id game →
             (∀ color c, player_at (g_players game') color = Some c →
                         c_color c = Some color) →
             c_socket client' = c_socket client →
             (∀ x, c_gameId client' = Some x →
                   c_gameId client = Some x ∨ x = gid) →
             (∀ k g, <[gid := game']> games !! k = Some g → g_id g = k)
             ∧ (∀ k g color c, <[gid := game']> games !! k = Some g →
                               player_at (g_players g) color = Some c →
                               c_color c = Some color)
             ∧ (∀ k, is_Some (games !! k) →
                     is_Some (<[gid := game']> games !! k))
             ∧ c_socket client' = c_socket client
             ∧ (∀ x, c_gameId client' = Some x →
                     c_gameId client = Some x
                     ∨ is_Some (<[gid := game']> games !! x))).
  { intros gid game game' client' Hg Hgid Hc Hs Hrec. split; [|split; [|split]].
    - intros k g. rewrite lookup_insert. case_decide; [|by eauto].
      intros [= <-]. subst k. rewrite Hgid. by eauto.
    - intros k g color c. rewrite lookup_insert. case_decide; [|by eauto].
      intros [= <-]. by eauto.
    - intros k Hk. rewrite lookup_insert. case_decide; by eauto.
    - split; [done|]. intros x Hx. destruct (Hrec x Hx) as [?| ->]; [by left|].
      right. rewrite lookup_insert_eq. by eauto. }
  unfold Hub.on_message. destruct parsed as [m|]; [|exact Hsame].
  destruct (type_is m "ping"); [exact Hsame|].
  destruct (type_is m "create").
  { unfold Hub.on_create. set (gid := default _ _).
    destruct (games !! gid) eqn:Hgid; [exact Hsame|].
    cbn [r_games r_client c_socket c_gameId]. split; [|split; [|split]].
    - intros k g. rewrite lookup_insert. case_decide; [|by eauto].
      by intros [= <-].
    - intros k g color c. rewrite lookup_insert. case_decide; [|by eauto].
      intros [= <-]. cbn [g_players].
      destruct (normalizeColor _), color; simpl; by intros [= <-].
    - intros k Hk. rewrite lookup_insert. case_decide; by eauto.
    - split; [done|]. intros x [= <-]. right. rewrite lookup_insert_eq.
      by eauto. }
  destruct (type_is m "join").
  { unfold Hub.on_join. destruct (m_gameId m) as [key|]; [|exact Hsame].
    simpl. destruct (games !! key) as [game|] eqn:Hkey; [|exact Hsame].
    simpl. destruct (Hub.assignedColor game _) as [col|];
      cbn [r_games r_client]; apply (Hupd key game); try done.
    - cbn [g_players with_status with_players]. intros color c.
      destruct col, color; simpl; try (by intros [= <-]);
        intros Hc; by apply (Hseat key game _ c Hkey).
    - intros x [= <-]. right. by apply Hid.
    - intros color c Hc. by apply (Hseat key game color c Hkey).
    - intros x [= <-]. right. by apply Hid. }
  destruct (type_is m "end").
  { unfold Hub.on_end.
    destruct (if_truthy (c_gameId client)) as [gid|]; [|exact Hsame].
    destruct (games !! gid) as [game|] eqn:Hg; [|exact Hsame].
    cbn [r_games r_client]. apply (Hupd gid game); try done; [|by eauto].
    intros color c Hc. by apply (Hseat gid game color c Hg). }
  destruct (isMoveMessage m) as [mv|]; [|exact Hsame].
  unfold Hub.on_move.
  destruct (if_truthy (c_gameId client)) as [gid|]; [|exact Hsame].
  destruct (c_color client) as [color|]; [|exact Hsame].
  destruct (games !! gid) as [game|] eqn:Hg; [|exact Hsame].
  destruct (bool_decide _); [exact Hsame|].
  destruct (if_truthy (FEN mv)); [|exact Hsame].
  cbn [r_games r_client]. apply (Hupd gid game); try done; [|by eauto].
  intros color' c Hc. by apply (Hseat gid game color' c Hg).
Qed.

Lemma removeClientFromGame_rooms ready (games : gmap string Game) client :
  (∀ k g, games !! k = Some g → g_id g = k) →
  (∀ k g color c, games !! k = Some g →
                  player_at (g_players g) color = Some c →
                  c_color c = Some color) →
  let gs := (Hub.removeClientFromGame ready games client).1 in
  (∀ k g, gs !! k = Some g → g_id g = k)
  ∧ (∀ k g color c, gs !! k = Some g →
                    player_at (g_players g) color = Some c →
                    c_color c = Some color)
  ∧ (∀ k, is_Some (games !! k) → is_Some (gs !! k)).
Proof.
  intros Hid Hseat gs. subst gs. unfold Hub.removeClientFromGame.
  destruct (if_truthy (c_gameId client)) as [gid|]; [|by eauto].
  destruct (games !! gid) as [game|] eqn:Hg; [|by eauto].
  cbn [fst]. split; [|split].
  - intros k g. rewrite lookup_insert. case_decide; [|by eauto].
    intros [= <-]. subst k. cbn [g_id with_status].
    unfold Hub.vacate.
    repeat case_bool_decide; cbn [g_id with_players with_watchers]; by eauto.
  - intros k g color c. rewrite lookup_insert. case_decide; [|by eauto].
    intros [= <-]. cbn [g_players with_status]. unfold Hub.vacate.
    repeat case_bool_decide; cbn [g_players with_players with_watchers];
      destruct color; simpl; try done; intros Hc;
      first [exact (Hseat gid game white c Hg Hc)
            |exact (Hseat gid game black c Hg Hc)].
  - intros k Hk. rewrite lookup_insert. case_decide; by eauto.
Qed.

Lemma step_wf (w : World) (t : Tick) : wf_world w → wf_world (step w t).1.
Proof.
  intros [Hid Hsock Hrec Hseat]. unfold step.
  destruct t as [ready [s uuid|s parsed uuid|s]]; cbn [t_input t_ready].
  - destruct (conns w !! s) eqn:Hs; [done|]. cbn [fst]. split; cbn [games conns].
    + done.
    + intros s' c. rewrite lookup_insert. case_decide; [|by eauto].
      by intros [= <-].
    + intros s' c gid. rewrite lookup_insert. case_decide; [|by eauto].
      by intros [= <-].
    + done.
  - destruct (conns w !! s) as [client|] eqn:Hs; [|done]. cbn [fst].
    destruct (on_message_rooms ready (games w) client parsed uuid Hid Hseat)
      as (Hid' & Hseat' & Hdom & Hsock' & Hrec').
    split; cbn [games conns]; [done| | |done].
    + intros s' c. rewrite lookup_insert. case_decide; [|by eauto].
      intros [= <-]. subst s'. rewrite Hsock'. by eauto.
    + intros s' c gid. rewrite lookup_insert. case_decide.
      * intros [= <-] Hgid. destruct (Hrec' gid Hgid) as [Hold|Hnew]; [|done].
        apply Hdom. by eauto.
      * intros Hc Hgid. apply Hdom. by eauto.
  - destruct (conns w !! s) as [client|] eqn:Hs; [|done].
    pose proof (removeClientFromGame_rooms (closed_for s ready) (games w)
                  client Hid Hseat) as (Hid' & Hseat' & Hdom).
    destruct (Hub.removeClientFromGame _ (games w) client) as [gs out].
    cbn [fst] in *. split; cbn [games conns]; [done| | |done].
    + intros s' c. rewrite lookup_delete. case_decide; [done|by eauto].
    + intros s' c gid. rewrite lookup_delete. case_decide; [done|].
      intros Hc Hgid. apply Hdom. by eauto.
Qed.

Lemma run_wf (ts : list Tick) (w : World) :
  wf_world w → wf_world (run w ts).1.
Proof.
  revert w. induction ts as [|t ts IH]; simpl; intros w Hw; [done|].
  pose proof (step_wf w t Hw) as H1. destruct (step w t) as [w1 out1].
  pose proof (IH w1 H1) as H2. by destruct (run w1 ts).
Qed.

Lemma empty_world_wf : wf_world empty_world.
Proof. by split. Qed.

(** X9.  In every state the hub reaches from its start, whatever is
    received: each room is stored under its own identifier; each
    connection record is kept under its own socket; the room a connection
    has on record exists (rooms are never removed); and the record held
    in a seat carries the colour of that seat. *)
Theorem reachable_worlds_are_well_formed (ts : list Tick) :
  let w := (run empty_world ts).1 in
  (∀ k g, games w !! k = Some g → g_id g = k)
  ∧ (∀ s c, conns w !! s = Some c → c_socket c = s)
  ∧ (∀ s c gid, conns w !! s = Some c → c_gameId c = Some gid →
                is_Some (games w !! gid))
  ∧ (∀ k g color c, games w !! k = Some g →
                    player_at (g_players g) color = Some c →
                    c_color c = Some color).
Proof.
  intros w. by destruct (run_wf ts empty_world empty_world_wf).
Qed.

Lemma reachable_worlds_are_well_formed_witness :
  ∃ g, games abandoned_seat !! "b"%string = Some g ∧ g_id g = "b"%string.
Proof.
  destruct (reachable_worlds_are_well_formed
              [tick (Connect 1 "u1");
               tick (Receive 1 (Some (msg_create (Some "a"%string) None))
                       some_uuid);
               tick (Receive 1 (Some (msg_create (Some "b"%string) None))
                       some_uuid);
               tick (Close 1)]) as (Hid & _).
  eexists. split; [by vm_compute|]. apply Hid. by vm_compute.
Defined.

(** X10.  In a reachable state two of the hub's answers cannot occur.
    An end request from a connection that has a room on record is never
    dropped in silence: it ends that room.  And a move from a connection
    with a room and a colour on record is never answered with the
    game-not-found error. *)
Theorem recorded_room_is_always_found (ts : list Tick)
    (ready : Socket → bool) (s : Socket) (client : Client) (gid : string) :
  let w := (run empty_world ts).1 in
  conns w !! s = Some client →
  if_truthy (c_gameId client) = Some gid →
  (∀ m, ∃ game,
     games w !! gid = Some game
     ∧ (g_status <$> r_games (Hub.on_end ready (games w) client m) !! gid)
       = Some ended)
  ∧ (∀ mv s',
       (s', EvError "Game not found")
       ∉ r_sent (Hub.on_move ready (games w) client mv)).
Proof.
  intros w Hc Hgid.
  destruct (run_wf ts empty_world empty_world_wf) as [_ _ Hrec _].
  apply if_truthy_Some in Hgid as Hg. destruct Hg as [Hg _].
  destruct (Hrec s client gid Hc Hg) as [game Hgame]. fold w in Hgame.
  split.
  - intros m. exists game. split; [done|]. unfold Hub.on_end.
    rewrite Hgid, Hgame. cbn [r_games]. by rewrite lookup_insert_eq.
  - intros mv s' H. unfold Hub.on_move in H. rewrite Hgid, Hgame in H.
    destruct (c_color client) as [color|];
      [|by apply elem_of_safeSend in H as [[=] _]].
    destruct (bool_decide _); [by apply elem_of_safeSend in H as [[=] _]|].
    destruct (if_truthy (FEN mv));
      [|by apply elem_of_safeSend in H as [[=] _]].
    by apply elem_of_broadcast in H as [[=] _].
Qed.

Lemma recorded_room_is_always_found_witness :
  (g_status <$>
     r_games (Hub.on_end always_open (games full_table)
                {| c_id := "u3"; c_socket := 3; c_name := None;
                   c_color := None; c_gameId := Some "a"%string;
                   c_viewer := Some true |} (msg_end None))
     !! "a"%string) = Some ended.
Proof.
  destruct (recorded_room_is_always_found
              [tick (Connect 1 "u1");
               tick (Receive 1 (Some (msg_create (Some "a"%string) None))
                       some_uuid);
               tick (Connect 2 "u2");
               tick (Receive 2 (Some (msg_join (Some "a"%string) None))
                       some_uuid);
               tick (Connect 3 "u3");
               tick (Receive 3 (Some (msg_join (Some "a"%string) None))
                       some_uuid)]
              always_open 3
              {| c_id := "u3"; c_socket := 3; c_name := None;
                 c_color := None; c_gameId := Some "a"%string;
                 c_viewer := Some true |} "a") as [H _].
  - by vm_compute.
  - reflexivity.
  - destruct (H (msg_end None)) as (game & _ & Hst). exact Hst.
Defined.

(** ** The move log *)

Lemma on_message_log ready (games : gmap string Game) client parsed uuid :
  let r := Hub.on_message ready games client parsed uuid in
  (∀ k g, games !! k = Some g →
          ∃ g', r_games r !! k = Some g' ∧ log_step g g')
  ∧ (∀ k g', games !! k = None → r_games r !! k = Some g' →
             g_moves g' = [] ∧ g_fen g' = START_FEN).
Proof.
  intros r. subst r.
  assert (Hsame : (∀ k g, games !! k = Some g →
                          ∃ g', games !! k = Some g' ∧ log_step g g')
                  ∧ (∀ k g', games !! k = None → games !! k = Some g' →
                             g_moves g' = [] ∧ g_fen g' = START_FEN)).
  { split; [|congruence]. intros k g Hk. exists g. split; [done|]. by left. }
  assert (Hupd : ∀ gid game game',
             games !! gid = Some game → log_step game game' →
             (∀ k g, games !! k = Some g →
                     ∃ g', <[gid := game']> games !! k = Some g'
                           ∧ log_step g g')
             ∧ (∀ k g', games !! k = None →
                        <[gid := game']> games !! k = Some g' →
                        g_moves g' = [] ∧ g_fen g' = START_FEN)).
  { intros gid game game' Hg Hstep. split.
    - intros k g Hk. rewrite lookup_insert. case_decide.
      + subst k. assert (g = game) as -> by congruence. by eauto.
      + exists g. split; [done|]. by left.
    - intros k g' Hk. rewrite lookup_insert. case_decide; congruence. }
  unfold Hub.on_message. destruct parsed as [m|]; [|exact Hsame].
  destruct (type_is m "ping"); [exact Hsame|].
  destruct (type_is m "create").
  { unfold Hub.on_create. set (gid := default _ _).
    destruct (games !! gid) eqn:Hgid; [exact Hsame|]. cbn [r_games]. split.
    - intros k g Hk. rewrite lookup_insert_ne by congruence.
      exists g. split; [done|]. by left.
    - intros k g' Hk. rewrite lookup_insert. case_decide; [|congruence].
      by intros [= <-]. }
  destruct (type_is m "join").
  { unfold Hub.on_join. destruct (m_gameId m) as [key|]; [|exact Hsame].
    simpl. destruct (games !! key) as [game|] eqn:Hkey; [|exact Hsame].
    simpl. destruct (Hub.assignedColor game _); cbn [r_games];
      apply (Hupd key game); try done; by left. }
  destruct (type_is m "end").
  { unfold Hub.on_end.
    destruct (if_truthy (c_gameId client)) as [gid|]; [|exact Hsame].
    destruct (games !! gid) as [game|] eqn:Hg; [|exact Hsame].
    cbn [r_games]. apply (Hupd gid game); [done|]. by left. }
  destruct (isMoveMessage m) as [mv|]; [|exact Hsame].
  unfold Hub.on_move.
  destruct (if_truthy (c_gameId client)) as [gid|]; [|exact Hsame].
  destruct (c_color client) as [color|]; [|exact Hsame].
  destruct (games !! gid) as [game|] eqn:Hg; [|exact Hsame].
  destruct (bool_decide _); [exact Hsame|].
  destruct (if_truthy (FEN mv)) as [fen|] eqn:Hfen; [|exact Hsame].
  cbn [r_games]. apply (Hupd gid game); [done|]. right. by exists mv, fen.
Qed.

Lemma removeClientFromGame_log ready (games : gmap string Game) client :
  let gs := (Hub.removeClientFromGame ready games client).1 in
  (∀ k g, games !! k = Some g → ∃ g', gs !! k = Some g' ∧ log_step g g')
  ∧ (∀ k g', games !! k = None → gs !! k = Some g' →
             g_moves g' = [] ∧ g_fen g' = START_FEN).
Proof.
  intros gs. subst gs.
  assert (Hsame : (∀ k g, games !! k = Some g →
                          ∃ g', games !! k = Some g' ∧ log_step g g')
                  ∧ (∀ k g', games !! k = None → games !! k = Some g' →
                             g_moves g' = [] ∧ g_fen g' = START_FEN)).
  { split; [|congruence]. intros k g Hk. exists g. split; [done|]. by left. }
  unfold Hub.removeClientFromGame.
  destruct (if_truthy (c_gameId client)) as [gid|]; [|exact Hsame].
  destruct (games !! gid) as [game|] eqn:Hg; [|exact Hsame].
  cbn [fst]. split.
  - intros k g Hk. rewrite lookup_insert. case_decide.
    + subst k. assert (g = game) as -> by congruence.
      eexists. split; [done|]. left. unfold Hub.vacate.
      by repeat case_bool_decide.
    + exists g. split; [done|]. by left.
  - intros k g' Hk. rewrite lookup_insert. case_decide; congruence.
Qed.

Lemma step_log (w : World) (t : Tick) :
  (∀ k g, games w !! k = Some g →
          ∃ g', games (step w t).1 !! k = Some g' ∧ log_step g g')
  ∧ (∀ k g', games w !! k = None → games (step w t).1 !! k = Some g' →
             g_moves g' = [] ∧ g_fen g' = START_FEN).
Proof.
  assert (Hsame : (∀ k g, games w !! k = Some g →
                          ∃ g', games w !! k = Some g' ∧ log_step g g')
                  ∧ (∀ k g', games w !! k = None → games w !! k = Some g' →
                             g_moves g' = [] ∧ g_fen g' = START_FEN)).
  { split; [|congruence]. intros k g Hk. exists g. split; [done|]. by left. }
  unfold step. destruct t as [ready [s uuid|s parsed uuid|s]];
    cbn [t_input t_ready].
  - by destruct (conns w !! s).
  - destruct (conns w !! s) as [client|]; [|done]. cbn [fst games].
    apply on_message_log.
  - destruct (conns w !! s) as [client|]; [|done].
    pose proof (removeClientFromGame_log (closed_for s ready) (games w)
                  client) as H.
    by destruct (Hub.removeClientFromGame _ (games w) client).
Qed.

Lemma log_step_position (g g' : Game) :
  log_step g g' → log_gives_position g → log_gives_position g'.
Proof.
  unfold log_gives_position.
  intros [[-> ->]|(mv & fen & Hfen & -> & ->)] [Hpos Hall]; [done|].
  split.
  - unfold position_of_log. by rewrite last_snoc.
  - apply Forall_app. split; [done|]. constructor; [|done].
    unfold if_truthy in Hfen. by destruct (truthy (FEN mv)).
Qed.

Lemma run_log_position (ts : list Tick) (w : World) :
  map_Forall (fun _ g => log_gives_position g) (games w) →
  map_Forall (fun _ g => log_gives_position g) (games (run w ts).1).
Proof.
  revert w. induction ts as [|t ts IH]; simpl; intros w Hw; [done|].
  destruct (step_log w t) as [Hold Hnew].
  destruct (step w t) as [w1 out1]. cbn [fst] in *.
  assert (H1 : map_Forall (fun _ g => log_gives_position g) (games w1)).
  { intros k g' Hk. destruct (games w !! k) as [g|] eqn:Hg.
    - destruct (Hold k g Hg) as (g'' & Hg'' & Hstep).
      assert (g'' = g') as -> by congruence.
      by apply (log_step_position g g' Hstep), (Hw k).
    - destruct (Hnew k g' Hg Hk) as [Hm Hf]. unfold log_gives_position.
      by rewrite Hm, Hf. }
  pose proof (IH w1 H1) as H2. by destruct (run w1 ts).
Qed.

(** X11.  In every room the hub can reach, the position of the room is
    the position carried by the last record of its move log, or the
    initial position when no move has been accepted yet; and every record
    in the log carries a position. *)
Theorem position_is_the_last_logged (ts : list Tick) (k : string) (g : Game) :
  games (run empty_world ts).1 !! k = Some g →
  position_of_log (g_moves g) = Some (g_fen g)
  ∧ Forall (fun mv => truthy (FEN mv) = true) (g_moves g).
Proof.
  intros Hk.
  exact (run_log_position ts empty_world (map_Forall_empty _) k g Hk).
Qed.

Lemma position_is_the_last_logged_witness :
  position_of_log [pawn_move (Some AFTER_E4)] = Some AFTER_E4.
Proof.
  pose proof (position_is_the_last_logged
                [tick (Connect 1 "u1");
                 tick (Receive 1 (Some (msg_create (Some "a"%string) None))
                         some_uuid);
                 tick (Receive 1
                         (Some (msg_move "a" (pawn_move (Some AFTER_E4))))
                         some_uuid)]
                "a"
                {| g_id := "a"; g_fen := AFTER_E4; g_status := waiting;
                   g_players :=
                     {| p_white :=
                          Some {| c_id := "u1"; c_socket := 1;
                                  c_name := None; c_color := Some white;
                                  c_gameId := None; c_viewer := None |};
                        p_black := None |};
                   g_watchers := []; g_moves := [pawn_move (Some AFTER_E4)];
                   g_result := None |}) as H.
  apply H. by vm_compute.
Defined.

(** X12.  The move log of a room is append-only and rooms are never
    removed: after any sequence of inputs a room that existed is still
    there under the same identifier, its earlier log is a prefix of its
    log, and the log has grown by at most one record for each input. *)
Theorem move_log_is_append_only (ts : list Tick) (w : World) (k : string)
    (g : Game) :
  games w !! k = Some g →
  ∃ g' later,
    games (run w ts).1 !! k = Some g'
    ∧ g_moves g' = g_moves g ++ later
    ∧ length later ≤ length ts.
Proof.
  revert w g. induction ts as [|t ts IH]; simpl; intros w g Hk.
  - exists g, []. by rewrite app_nil_r.
  - destruct (step_log w t) as [Hold _].
    destruct (Hold k g Hk) as (g1 & Hg1 & Hstep).
    destruct (step w t) as [w1 out1]. cbn [fst] in *.
    destruct (IH w1 g1 Hg1) as (g2 & later & Hg2 & Hm & Hlen).
    destruct (run w1 ts) as [w2 out2]. cbn [fst] in *.
    destruct Hstep as [[Hsame _]|(mv & fen & _ & Happ & _)].
    + exists g2, later. rewrite Hm, Hsame. split; [done|]. split; [done|lia].
    + exists g2, (mv :: later). rewrite Hm, Happ, <- app_assoc.
      split; [done|]. split; [done|]. simpl. lia.
Qed.

Lemma move_log_is_append_only_witness :
  ∃ g' later,
    games (run one_seated
             [tick (Receive 1
                      (Some (msg_move "a" (pawn_move (Some AFTER_E4))))
                      some_uuid);
              tick (Close 1)]).1 !! "a"%string = Some g'
    ∧ g_moves g' = [] ++ later ∧ length later ≤ 2.
Proof.
  exact (move_log_is_append_only
           [tick (Receive 1 (Some (msg_move "a" (pawn_move (Some AFTER_E4))))
                    some_uuid);
            tick (Close 1)] one_seated "a" _ one_seated_room).
Defined.

(** * Further properties of the hub with a matchmaking queue *)

Lemma map_get_set_ne (m : list (string * Game)) k k' g :
  k' ≠ k → QueueHub.map_get (QueueHub.map_set m k g) k' = QueueHub.map_get m k'.
Proof.
  intros Hne. induction m as [|[k0 g0] m IH]; simpl.
  - destruct (String.eqb k k') eqn:H; [|done].
    apply String.eqb_eq in H. congruence.
  - destruct (String.eqb k0 k) eqn:H; simpl.
    + apply String.eqb_eq in H. subst k0.
      destruct (String.eqb k k') eqn:H'; [|done].
      apply String.eqb_eq in H'. congruence.
    + by rewrite IH.
Qed.

(** X13.  Matching is first in, first out.  When a queue message arrives
    while others wait, the two oldest entries are the ones matched, the
    older one getting the colour drawn and the next one the other colour;
    the new room holds them in those seats, is active, starts from the
    initial position with no moves and no observers, and replaces nothing
    but a room of the same identifier; the entries behind them stay queued
    in their order.  When nobody waits, the sender is queued and no room
    is made. *)
Theorem matching_is_fifo (ready : Socket → bool) (wss_clients : list Socket)
    (games : list (string * Game)) (queue : list QueueHub.QueueEntry)
    (client : QueueHub.QClient) (parsed : Msg) (now : Z) (below_half : bool)
    (uuid : string) :
  let r :=
    QueueHub.on_queue ready wss_clients games queue client parsed now
      below_half uuid in
  let e := entry_of client parsed now in
  let gid := createGameId uuid in
  let color := QueueHub.randomColor below_half in
  (queue = [] →
   QueueHub.qr_queue r = [e] ∧ QueueHub.qr_games r = games
   ∧ QueueHub.qr_sent r
     = QueueHub.safeSend ready (c_socket (QueueHub.q_client client))
         (QueueHub.EvQueueStatus 1 true))
  ∧ (∀ p1 rest,
       queue = p1 :: rest →
       ∃ p2 g,
         (rest ++ [e]) !! 0%nat = Some p2
         ∧ QueueHub.qr_queue r = drop 1 (rest ++ [e])
         ∧ QueueHub.map_get (QueueHub.qr_games r) gid = Some g
         ∧ (∀ k, k ≠ gid →
              QueueHub.map_get (QueueHub.qr_games r) k
              = QueueHub.map_get games k)
         ∧ g_status g = active ∧ g_fen g = START_FEN
         ∧ g_moves g = [] ∧ g_watchers g = []
         ∧ player_at (g_players g) color
           = Some (QueueHub.seat_of p1 color gid)
         ∧ player_at (g_players g) (other_color color)
           = Some (QueueHub.seat_of p2 (other_color color) gid)).
Proof.
  intros r e gid color. subst r. unfold QueueHub.on_queue.
  fold (entry_of client parsed now). fold e. split.
  - intros ->. done.
  - intros p1 rest ->. cbn [app].
    destruct (rest ++ [e]) as [|p2 rest'] eqn:Hrest.
    { by destruct rest. }
    exists p2. eexists. cbn [QueueHub.qr_queue QueueHub.qr_games].
    fold gid color. split; [done|]. split; [done|].
    split; [apply map_get_set|].
    split; [intros k Hk; by apply map_get_set_ne|].
    cbn [g_status g_fen g_moves g_watchers g_players].
    repeat (split; [done|]). by destruct color.
Qed.

Lemma matching_is_fifo_witness :
  let a := entry_of (fresh_qclient 1 "u1") msg_queue 10 in
  let b := entry_of (fresh_qclient 2 "u2") msg_queue 20 in
  let r := QueueHub.on_queue always_open [1; 2; 3] [] [a; b]
             (fresh_qclient 3 "u3") msg_queue 30 true some_uuid in
  QueueHub.qr_queue r = [entry_of (fresh_qclient 3 "u3") msg_queue 30].
Proof.
  intros a b r.
  destruct (matching_is_fifo always_open [1; 2; 3] [] [a; b]
              (fresh_qclient 3 "u3") msg_queue 30 true some_uuid)
    as [_ H].
  destruct (H a [b] eq_refl) as (p2 & g & _ & Hq & _). exact Hq.
Defined.

Lemma remove_first_spec (id : string) (queue : list QueueHub.QueueEntry) :
  match QueueOps.remove_first id queue with
  | None => Forall (fun e => QueueHub.clientId e ≠ id) queue
  | Some queue' =>
      ∃ before e after,
        queue = before ++ e :: after ∧ QueueHub.clientId e = id
        ∧ Forall (fun x => QueueHub.clientId x ≠ id) before
        ∧ queue' = before ++ after
  end.
Proof.
  induction queue as [|e rest IH]; simpl; [done|].
  destruct (String.eqb (QueueHub.clientId e) id) eqn:He.
  - apply String.eqb_eq in He. by exists [], e, rest.
  - apply String.eqb_neq in He.
    destruct (QueueOps.remove_first id rest) as [rest'|]; simpl.
    + destruct IH as (before & x & after & -> & Hx & Hb & ->).
      exists (e :: before), x, after. repeat split; try done.
      by constructor.
    + by constructor.
Qed.

(** X14.  Cancelling removes from the queue the oldest entry of the
    sender and no other entry; the entries of everybody else stay, in
    their order.  The sender is marked as no longer queued.  A client that
    is not queued changes nothing by cancelling.  In both cases the sender
    is sent the same acknowledgement.  A client that queues alone and then
    cancels leaves the queue empty. *)
Theorem cancel_removes_own_entry (ready : Socket → bool)
    (queue : list QueueHub.QueueEntry) (client : QueueHub.QClient) :
  let r := QueueOps.on_cancel_queue ready queue client in
  let id := c_id (QueueHub.q_client client) in
  QueueOps.cr_sent r
  = QueueOps.safeSend ready (c_socket (QueueHub.q_client client))
      QueueOps.EvQueueCancelled
  ∧ (Forall (fun e => QueueHub.clientId e ≠ id) queue →
     QueueOps.cr_queue r = queue ∧ QueueOps.cr_client r = client)
  ∧ (∀ before e after,
       queue = before ++ e :: after → QueueHub.clientId e = id →
       Forall (fun x => QueueHub.clientId x ≠ id) before →
       QueueOps.cr_queue r = before ++ after
       ∧ QueueHub.inQueue (QueueOps.cr_client r) = Some false
       ∧ QueueHub.q_client (QueueOps.cr_client r) = QueueHub.q_client client)
  ∧ (∀ wss games parsed now below_half uuid ready',
       let queued :=
         QueueHub.on_queue ready' wss games [] client parsed now below_half
           uuid in
       QueueOps.cr_queue
         (QueueOps.on_cancel_queue ready (QueueHub.qr_queue queued)
            (QueueHub.qr_client queued)) = []).
Proof.
  intros r id. subst r. unfold QueueOps.on_cancel_queue. fold id.
  pose proof (remove_first_spec id queue) as Hspec.
  split; [by destruct (QueueOps.remove_first id queue)|].
  split; [|split].
  - intros Hnot. destruct (QueueOps.remove_first id queue) as [queue'|];
      [|done].
    destruct Hspec as (before & e & after & -> & He & _ & _).
    apply Forall_app in Hnot as [_ Hnot]. by inversion Hnot.
  - intros before e after -> He Hb.
    destruct (QueueOps.remove_first id (before ++ e :: after)) as [queue'|].
    + destruct Hspec as (before' & e' & after' & Heq & He' & Hb' & ->).
      cbn [QueueOps.cr_queue QueueOps.cr_client QueueHub.inQueue
           QueueHub.q_client].
      split; [|done].
      assert (Hlen : length before' = length before).
      { destruct (Nat.lt_total (length before') (length before))
          as [Hlt|[Heq'|Hgt]]; [|done|].
        - exfalso. apply (f_equal (fun l => l !! length before')) in Heq.
          rewrite (lookup_app_l before) in Heq by done.
          rewrite list_lookup_middle in Heq by done.
          destruct (before !! length before') as [x|] eqn:Hx; [|done].
          injection Heq as ->.
          rewrite Forall_lookup in Hb. by apply (Hb _ _ Hx).
        - exfalso. apply (f_equal (fun l => l !! length before)) in Heq.
          rewrite list_lookup_middle in Heq by done.
          rewrite (lookup_app_l before') in Heq by done.
          destruct (before' !! length before) as [x|] eqn:Hx; [|done].
          injection Heq as <-.
          rewrite Forall_lookup in Hb'. by apply (Hb' _ _ Hx). }
      apply app_inj_1 in Heq as [-> Heq]; [|done]. by injection Heq as _ ->.
    + exfalso. apply Forall_app in Hspec as [_ Hspec]. by inversion Hspec.
  - intros wss games parsed now below_half uuid ready'. simpl.
    by rewrite String.eqb_refl.
Qed.

Lemma cancel_removes_own_entry_witness :
  let a := entry_of (fresh_qclient 1 "u1") msg_queue 10 in
  let b := entry_of (fresh_qclient 2 "u2") msg_queue 20 in
  QueueOps.cr_queue
    (QueueOps.on_cancel_queue always_open [a; b] (fresh_qclient 2 "u2"))
  = [a]
  ∧ QueueOps.cr_queue
      (QueueOps.on_cancel_queue always_open [a] (fresh_qclient 2 "u2"))
    = [a].
Proof.
  intros a b.
  destruct (cancel_removes_own_entry always_open [a; b]
              (fresh_qclient 2 "u2")) as (_ & _ & Hin & _).
  destruct (cancel_removes_own_entry always_open [a]
              (fresh_qclient 2 "u2")) as (_ & Hout & _).
  split.
  - destruct (Hin [a] b [] eq_refl eq_refl) as [H _]; [|exact H].
    constructor; [by intros [=]|constructor].
  - apply Hout. constructor; [by intros [=]|constructor].
Defined.

Lemma cancel_length ready queue client :
  length (QueueOps.cr_queue (QueueOps.on_cancel_queue ready queue client))
  ≤ length queue.
Proof.
  unfold QueueOps.on_cancel_queue.
  pose proof (remove_first_spec (c_id (QueueHub.q_client client)) queue) as H.
  destruct (QueueOps.remove_first _ queue) as [queue'|]; [|done].
  destruct H as (before & e & after & -> & _ & _ & ->).
  cbn [QueueOps.cr_queue]. rewrite !length_app. simpl. lia.
Qed.

(** X15.  The queue never rests with two clients in it.  Starting from a
    queue of at most one entry, after any sequence of queue and cancel
    messages, from any clients, at most one entry waits: a second arrival
    is matched at once. *)
Theorem queue_rests_with_at_most_one (ready : Socket → bool)
    (wss_clients : list Socket) (inputs : list QueueOps.QueueInput)
    (games : list (string * Game)) (queue : list QueueHub.QueueEntry) :
  length queue ≤ 1 →
  length (QueueOps.queue_run ready wss_clients (games, queue) inputs).2 ≤ 1.
Proof.
  revert games queue. unfold QueueOps.queue_run.
  induction inputs as [|i inputs IH]; intros games queue Hlen; [done|].
  cbn [fold_left].
  destruct (QueueOps.queue_step ready wss_clients (games, queue) i)
    as [games1 queue1] eqn:Hstep.
  apply IH. destruct i as [client parsed now below_half uuid|client];
    cbn [QueueOps.queue_step fst snd] in Hstep; injection Hstep as _ <-.
  - unfold QueueHub.on_queue. destruct queue as [|p1 [|p2 rest]];
      simpl in *; lia.
  - etransitivity; [apply cancel_length|done].
Qed.

Lemma queue_rests_with_at_most_one_witness :
  length
    (QueueOps.queue_run always_open [1; 2; 3] ([], [])
       [QueueOps.Enqueue (fresh_qclient 1 "u1") msg_queue 10 true some_uuid;
        QueueOps.Enqueue (fresh_qclient 2 "u2") msg_queue 20 true some_uuid;
        QueueOps.Enqueue (fresh_qclient 3 "u3") msg_queue 30 true
          some_uuid]).2 ≤ 1.
Proof.
  apply (queue_rests_with_at_most_one always_open [1; 2; 3]). simpl. lia.
Defined.

Lemma elem_of_map_set (m : list (string * Game)) k g :
  (k, g) ∈ QueueHub.map_set m k g.
Proof.
  induction m as [|[k0 g0] m IH]; simpl; [apply list_elem_of_here|].
  destruct (String.eqb k0 k); [apply list_elem_of_here|].
  by apply list_elem_of_further.
Qed.

(** X16.  The directory lists the active rooms only, and a room made by
    a match is in it from the moment it is made.  Every entry of the list
    has status active; right after a match the list sent to every open
    socket of the server, and the list any client then asks for, contain
    the new room with no moves and no observers. *)
Theorem matched_room_is_listed (ready : Socket → bool)
    (wss_clients : list Socket) (games : list (string * Game))
    (p1 : QueueHub.QueueEntry) (rest : list QueueHub.QueueEntry)
    (client asker : QueueHub.QClient) (parsed : Msg) (now : Z)
    (below_half : bool) (uuid : string) (s : Socket) :
  let r :=
    QueueHub.on_queue ready wss_clients games (p1 :: rest) client parsed now
      below_half uuid in
  let listing := QueueHub.gamesList (QueueHub.qr_games r) in
  Forall (fun entry => QueueHub.gs_status entry = active) listing
  ∧ (∃ entry,
       entry ∈ listing
       ∧ QueueHub.gs_id entry = createGameId uuid
       ∧ QueueHub.gs_fen entry = START_FEN
       ∧ QueueHub.moveCount entry = 0 ∧ QueueHub.watcherCount entry = 0)
  ∧ (s ∈ wss_clients → ready s = true →
     (s, QueueHub.EvGamesList listing) ∈ QueueHub.qr_sent r)
  ∧ (ready (c_socket (QueueHub.q_client asker)) = true →
     QueueOps.on_list_games ready (QueueHub.qr_games r) asker
     = [(c_socket (QueueHub.q_client asker), QueueHub.EvGamesList listing)]).
Proof.
  intros r listing. split; [|split; [|split]].
  - subst listing. unfold QueueHub.gamesList.
    apply Forall_forall. intros entry Hin.
    apply list_elem_of_In, in_map_iff in Hin as (g & <- & Hg).
    apply list_elem_of_In, list_elem_of_filter in Hg as [Hact _]. exact Hact.
  - subst listing r. unfold QueueHub.on_queue. cbn [app].
    destruct (rest ++ [_]) as [|p2 rest'] eqn:Hrest; [by destruct rest|].
    cbn [QueueHub.qr_games]. unfold QueueHub.gamesList.
    eexists. split.
    + apply list_elem_of_In, in_map, list_elem_of_In, list_elem_of_filter.
      split; [|apply list_elem_of_In, in_map_iff; eexists; split;
                 [|apply list_elem_of_In, elem_of_map_set]; done].
      done.
    + done.
  - intros Hs Hr. subst listing r. unfold QueueHub.on_queue. cbn [app].
    destruct (rest ++ [_]) as [|p2 rest'] eqn:Hrest; [by destruct rest|].
    cbn [QueueHub.qr_games QueueHub.qr_sent]. rewrite !elem_of_app.
    right. right. right. unfold QueueHub.broadcastGamesList.
    apply list_elem_of_In, in_flat_map. exists s.
    split; [by apply list_elem_of_In|].
    unfold QueueHub.safeSend. rewrite Hr. by left.
  - intros Hr. unfold QueueOps.on_list_games, QueueHub.safeSend.
    by rewrite Hr.
Qed.

Lemma matched_room_is_listed_witness :
  let a := entry_of (fresh_qclient 1 "u1") msg_queue 10 in
  let r := QueueHub.on_queue always_open [1; 2; 3] [] [a]
             (fresh_qclient 2 "u2") msg_queue 20 true some_uuid in
  (3, QueueHub.EvGamesList (QueueHub.gamesList (QueueHub.qr_games r)))
  ∈ QueueHub.qr_sent r.
Proof.
  intros a r.
  destruct (matched_room_is_listed always_open [1; 2; 3] [] a []
              (fresh_qclient 2 "u2") (fresh_qclient 3 "u3") msg_queue 20
              true some_uuid 3) as (_ & _ & H & _).
  apply H; [|done]. apply list_elem_of_further, list_elem_of_further.
  apply list_elem_of_here.
Defined.

(** * Properties of the browser side *)

(** ** The seat summary shown *)

Lemma normalize_fold_colors (l : list PlayerInfo) (w b : PlayerInfo) :
  pi_color w = white → pi_color b = black →
  let base :=
    fold_left
      (fun (base : PlayerInfo * PlayerInfo) player =>
         match pi_color player with
         | white => (ClientUI.spread base.1 player, base.2)
         | black => (base.1, ClientUI.spread base.2 player)
         end) l (w, b) in
  pi_color base.1 = white ∧ pi_color base.2 = black.
Proof.
  revert w b. induction l as [|p l IH]; intros w b Hw Hb; [done|].
  cbn [fold_left]. destruct (pi_color p) eqn:Hp; apply IH; done.
Qed.

Lemma normalize_fold_snoc (l : list PlayerInfo) (p : PlayerInfo) :
  ClientUI.normalizePlayers (Some (l ++ [p]))
  = match ClientUI.normalizePlayers (Some l), pi_color p with
    | [w; b], white => [ClientUI.spread w p; b]
    | [w; b], black => [w; ClientUI.spread b p]
    | other, _ => other
    end.
Proof.
  unfold ClientUI.normalizePlayers. cbn [from_option id].
  rewrite fold_left_app. cbn [fold_left].
  by destruct (pi_color p).
Qed.

Lemma spread_base (color : FigureColor) (x : PlayerInfo) :
  ClientUI.spread (ClientUI.base_slot color) x = x.
Proof. destruct x as [c [n|] k]; reflexivity. Qed.

(** X17.  Whatever list of seats a frame carries, also none or a list
    with repeated or missing colours, the board shows exactly two seats,
    white first and black second.  A seat is shown as connected exactly
    when the last entry of its colour in the list says so, and as not
    connected when the list has no entry of that colour.  Normalising
    what is already normalised changes nothing. *)
Theorem normalizePlayers_two_seats (players : option (list PlayerInfo)) :
  ∃ w b,
    ClientUI.normalizePlayers players = [w; b]
    ∧ pi_color w = white ∧ pi_color b = black
    ∧ pi_connected w
      = default false
          (pi_connected <$>
             last (filter (fun p => pi_color p = white) (default [] players)))
    ∧ pi_connected b
      = default false
          (pi_connected <$>
             last (filter (fun p => pi_color p = black) (default [] players)))
    ∧ ClientUI.normalizePlayers (Some [w; b]) = [w; b].
Proof.
  set (l := default [] players).
  assert (Hl : ClientUI.normalizePlayers players
               = ClientUI.normalizePlayers (Some l)) by by destruct players.
  rewrite Hl. clearbody l. clear Hl players.
  induction l as [|p l IH] using rev_ind.
  - eexists _, _. by repeat split.
  - destruct IH as (w & b & Hn & Hw & Hb & Hcw & Hcb & Hid).
    rewrite normalize_fold_snoc, Hn. rewrite !filter_app.
    cbn [from_option id] in *.
    destruct (pi_color p) eqn:Hp.
    + exists (ClientUI.spread w p), b.
      rewrite (filter_cons_True _ p) by done.
      rewrite (filter_cons_False (fun q => pi_color q = black) p)
        by congruence.
      rewrite !filter_nil, app_nil_r, last_snoc.
      repeat split; try done.
      unfold ClientUI.normalizePlayers. cbn [from_option id fold_left].
      cbn [ClientUI.spread pi_color]. rewrite Hp. cbn [fst snd].
      rewrite Hb. cbn [fst snd].
      rewrite (spread_base white), (spread_base black). reflexivity.
    + exists w, (ClientUI.spread b p).
      rewrite (filter_cons_True (fun q => pi_color q = black) p) by done.
      rewrite (filter_cons_False (fun q => pi_color q = white) p)
        by congruence.
      rewrite !filter_nil, app_nil_r, last_snoc.
      repeat split; try done.
      unfold ClientUI.normalizePlayers. cbn [from_option id fold_left].
      rewrite Hw. cbn [fst snd ClientUI.spread pi_color]. rewrite Hp.
      cbn [fst snd].
      rewrite (spread_base white), (spread_base black). reflexivity.
Qed.

(** X18.  The seat summary the hub puts in its frames is shown by the
    board as it is: normalising the summary of any room gives that
    summary back. *)
Theorem hub_summary_is_shown_unchanged (game : Game) :
  ClientUI.normalizePlayers (Some (buildPlayers game)) = buildPlayers game.
Proof.
  unfold ClientUI.normalizePlayers, buildPlayers. cbn.
  unfold ClientUI.spread. cbn.
  by destruct (p_white (g_players game)) as [[? ? [?|] ? ? ?]|],
              (p_black (g_players game)) as [[? ? [?|] ? ? ?]|].
Qed.

(** ** When the board lets its user move *)

(** X19.  The board lets its user drag a piece exactly when the socket
    is open and the status line reads "Your move": the two are computed
    from the same conditions (no result shown, status active, not an
    observer, a colour assigned, and that colour to move in the position
    shown). *)
Theorem canMove_iff_your_move (connectionState : ClientUI.ConnectionState)
    (b : ClientUI.Board) :
  ClientUI.canMove connectionState b = true
  ↔ connectionState = ClientUI.cs_open
    ∧ ClientUI.statusLabel b = "Your move"%string.
Proof.
  unfold ClientUI.canMove, ClientUI.statusLabel.
  destruct connectionState, (ClientUI.b_viewer b),
    (ClientUI.b_assignedColor b), (ClientUI.b_status b),
    (ClientUI.b_result b);
    try case_bool_decide; split; try done; by intros [? ?].
Qed.

Lemma handle_roster_free reload (b : ClientUI.Board)
    (msg : ClientUI.ServerMessage) :
  ClientUI.not_roster msg = true →
  ClientUI.b_status (ClientUI.handleServerMessage reload b msg)
  = ClientUI.b_status b
  ∨ ClientUI.b_status (ClientUI.handleServerMessage reload b msg)
    = ClientUI.ui_ended.
Proof.
  destruct msg as [color viewer|move fen|players status|result fen|message|];
    simpl; try done; intros _.
  - left. by destruct color.
  - left. unfold ClientUI.syncChessToFen. by destruct (reload _).
  - by right.
  - by left.
  - by left.
Qed.

(** X20.  Only a player-joined or player-left frame can unlock the
    board.  If the board does not show status active, then after any
    frames that are sessions, matches, moves, ends or errors it still
    does not, and its user cannot move, whatever colour was assigned and
    whatever the position.  This holds in particular from the first
    render, where the status is idle. *)
Theorem board_stays_locked_without_roster (reload : string → option string)
    (connectionState : ClientUI.ConnectionState) (b : ClientUI.Board)
    (msgs : list ClientUI.ServerMessage) :
  ClientUI.b_status b ≠ ClientUI.ui_active →
  forallb ClientUI.not_roster msgs = true →
  let b' := fold_left (ClientUI.handleServerMessage reload) msgs b in
  ClientUI.b_status b' ≠ ClientUI.ui_active
  ∧ ClientUI.canMove connectionState b' = false.
Proof.
  intros Hb Hall b'.
  assert (Hst : ClientUI.b_status b' ≠ ClientUI.ui_active).
  { subst b'. revert b Hb. induction msgs as [|msg msgs IH]; intros b Hb;
      [done|].
    cbn [fold_left]. simpl in Hall. apply andb_prop in Hall as [Hmsg Hall].
    apply IH; [done|].
    destruct (handle_roster_free reload b msg Hmsg) as [-> | ->]; done. }
  split; [done|]. unfold ClientUI.canMove.
  destruct connectionState, (ClientUI.b_viewer b'),
    (ClientUI.b_assignedColor b'), (ClientUI.b_status b'),
    (ClientUI.b_result b'); done.
Qed.

Lemma board_stays_locked_without_roster_witness :
  ClientUI.canMove ClientUI.cs_open
    (fold_left (ClientUI.handleServerMessage Some)
       [ClientUI.SmSession (Some white) (Some false)]
       ClientUI.initial_board) = false.
Proof.
  apply (board_stays_locked_without_roster Some ClientUI.cs_open
           ClientUI.initial_board
           [ClientUI.SmSession (Some white) (Some false)]);
    [by intros [=]|reflexivity].
Defined.

(** ** The socket service *)

Lemma subscribe_lookup (m : gmap string (list ClientUI.Listener)) key l :
  ∃ ls, ClientUI.subscribe m key l !! key = Some ls
        ∧ l ∈ ls ∧ ls ≠ []
        ∧ (NoDup (default [] (m !! key)) → NoDup ls)
        ∧ (∀ x, x ∈ ls ↔ x = l ∨ x ∈ default [] (m !! key)).
Proof.
  unfold ClientUI.subscribe. rewrite lookup_insert_eq. eexists.
  split; [done|]. case_bool_decide as Hin.
  - split; [done|]. split; [by intros Heq; rewrite Heq in Hin;
                               apply elem_of_nil in Hin|].
    split; [done|]. intros x. split; [by right|]. by intros [->|?].
  - split; [apply elem_of_app; right; apply list_elem_of_here|].
    split; [by destruct (default [] (m !! key))|].
    split.
    + intros Hnd. apply NoDup_app. split; [done|].
      split; [|apply NoDup_singleton].
      intros x Hx Hx'. apply list_elem_of_singleton in Hx'. by subst.
    + intros x. rewrite elem_of_app, list_elem_of_singleton. tauto.
Qed.

Lemma unsubscribe_lookup (m : gmap string (list ClientUI.Listener)) key l :
  default [] (ClientUI.unsubscribe m key l !! key)
  = filter (fun x => x ≠ l) (default [] (m !! key))
  ∧ ClientUI.unsubscribe m key l !! key ≠ Some [].
Proof.
  unfold ClientUI.unsubscribe. destruct (m !! key) as [ls|] eqn:Hk.
  - destruct (filter (fun x => x ≠ l) ls) as [|y rest] eqn:Hf.
    + rewrite lookup_delete_eq. simpl. by rewrite Hf.
    + rewrite lookup_insert_eq. simpl. by rewrite Hf.
  - by rewrite Hk.
Qed.

Lemma sub_step_keeps (m : gmap string (list ClientUI.Listener))
    (i : ClientUI.SubInput) :
  map_Forall (fun _ ls => ls ≠ [] ∧ NoDup ls) m →
  map_Forall (fun _ ls => ls ≠ [] ∧ NoDup ls) (ClientUI.sub_step m i).
Proof.
  intros Hm. destruct i as [key l|key l]; simpl.
  - intros k ls Hk. destruct (decide (k = key)) as [->|Hne].
    + destruct (subscribe_lookup m key l) as (ls' & Hls' & _ & Hne & Hnd & _).
      assert (ls = ls') as -> by congruence. split; [done|].
      apply Hnd. destruct (m !! key) as [old|] eqn:Hold; simpl.
      * by apply (Hm key old).
      * by apply NoDup_nil.
    + unfold ClientUI.subscribe in Hk. rewrite lookup_insert_ne in Hk by done.
      by apply (Hm k).
  - unfold ClientUI.unsubscribe. destruct (m !! key) as [cur|] eqn:Hcur;
      [|done].
    destruct (filter (fun x => x ≠ l) cur) as [|y rest] eqn:Hf.
    + by apply map_Forall_delete.
    + apply map_Forall_insert_2; [|done]. split; [done|].
      rewrite <- Hf. apply NoDup_filter. by apply (Hm key cur).
Qed.

Lemma filter_absent (l : ClientUI.Listener) (ls : list ClientUI.Listener) :
  l ∉ ls → filter (fun x => x ≠ l) ls = ls.
Proof.
  induction ls as [|y ls IH]; [done|]. intros Hl.
  apply not_elem_of_cons in Hl as [Hy Hl].
  rewrite filter_cons_True by congruence. by rewrite IH.
Qed.

Lemma listener_table_kept (inputs : list ClientUI.SubInput)
    (m : gmap string (list ClientUI.Listener)) :
  map_Forall (fun _ ls => ls ≠ [] ∧ NoDup ls) m →
  map_Forall (fun _ ls => ls ≠ [] ∧ NoDup ls)
    (fold_left ClientUI.sub_step inputs m).
Proof.
  revert m. induction inputs as [|i inputs IH]; intros m Hm; [done|].
  cbn [fold_left]. by apply IH, sub_step_keeps.
Qed.

(** X21.  The listener table of the socket service never keeps an empty
    set and never holds a listener twice under one key, whatever
    components subscribe and unsubscribe.  Subscribing a listener that
    was not there and unsubscribing it again gives back the table as it
    was; after an unsubscribe that listener is no longer under that key;
    and subscribing twice is the same as subscribing once. *)
Theorem listener_table_round_trip (inputs : list ClientUI.SubInput) :
  let table := fold_left ClientUI.sub_step inputs ∅ in
  map_Forall (fun _ ls => ls ≠ [] ∧ NoDup ls) table
  ∧ (∀ key l,
       l ∉ default [] (table !! key) →
       ClientUI.unsubscribe (ClientUI.subscribe table key l) key l = table)
  ∧ (∀ key l, l ∉ default [] (ClientUI.unsubscribe table key l !! key))
  ∧ (∀ key l,
       ClientUI.subscribe (ClientUI.subscribe table key l) key l
       = ClientUI.subscribe table key l).
Proof.
  intros table.
  assert (Hinv : map_Forall (fun _ ls => ls ≠ [] ∧ NoDup ls) table).
  { apply listener_table_kept, map_Forall_empty. }
  split; [done|]. split; [|split].
  - intros key l Hl. unfold ClientUI.unsubscribe, ClientUI.subscribe.
    rewrite lookup_insert_eq. rewrite bool_decide_eq_false_2 by done.
    rewrite filter_app, (filter_cons_False _ l) by (intros H; by apply H).
    rewrite filter_nil, app_nil_r, (filter_absent l _ Hl).
    destruct (table !! key) as [cur|] eqn:Hcur; simpl.
    + destruct cur as [|y rest]; [by destruct (Hinv key [] Hcur)|].
      rewrite insert_insert_eq. by apply insert_id.
    + rewrite delete_insert_eq. by apply delete_id.
  - intros key l. destruct (unsubscribe_lookup table key l) as [-> _].
    rewrite list_elem_of_filter. by intros [? _].
  - intros key l.
    destruct (subscribe_lookup table key l) as (ls & Hls & Hin & _).
    unfold ClientUI.subscribe at 1. rewrite Hls. simpl.
    rewrite bool_decide_eq_true_2 by done.
    by apply insert_id.
Qed.

Lemma listener_table_round_trip_witness :
  ClientUI.unsubscribe
    (ClientUI.subscribe
       (fold_left ClientUI.sub_step
          [ClientUI.Subscribe "__global__" 1; ClientUI.Subscribe "a" 2] ∅)
       "a" 3) "a" 3
  = fold_left ClientUI.sub_step
      [ClientUI.Subscribe "__global__" 1; ClientUI.Subscribe "a" 2] ∅.
Proof.
  destruct (listener_table_round_trip
              [ClientUI.Subscribe "__global__" 1; ClientUI.Subscribe "a" 2])
    as (_ & H & _).
  apply H. vm_compute. intros Hin.
  apply list_elem_of_singleton in Hin. discriminate.
Defined.

(** X22.  A frame is handed to the listeners of one key only: the room
    it names, or the global key when it names none.  So a listener that
    is subscribed under one key receives a frame exactly when the frame
    routes to that key.  A board subscribed for a room therefore never
    receives the hub's error frames, which name no room; and a page
    subscribed without a room never receives a matched frame, which names
    the new room. *)
Theorem frames_reach_one_key (table : gmap string (list ClientUI.Listener))
    (l : ClientUI.Listener) (autoJoinGameId : option string) :
  (∀ k ls, table !! k = Some ls → l ∈ ls →
           k = ClientUI.subscription_key autoJoinGameId) →
  (∀ gameId,
     l ∈ ClientUI.routeMessage table gameId
     ↔ ClientUI.subscription_key gameId
       = ClientUI.subscription_key autoJoinGameId
       ∧ l ∈ default [] (table !! ClientUI.subscription_key autoJoinGameId))
  ∧ (∀ g message,
       if_truthy autoJoinGameId = Some g → g ≠ "__global__"%string →
       l ∉ ClientUI.routeMessage table
             (ClientUI.event_gameId (EvError message)))
  ∧ (∀ g color fen status players revealed,
       if_truthy autoJoinGameId = None →
       if_truthy (Some g) = Some g → g ≠ "__global__"%string →
       l ∉ ClientUI.routeMessage table
             (ClientUI.qevent_gameId
                (QueueHub.EvMatched g color fen status players revealed))).
Proof.
  intros Honly.
  assert (Hroute : ∀ gameId,
            ClientUI.routeMessage table gameId
            = default [] (table !! ClientUI.subscription_key gameId)).
  { intros gameId. unfold ClientUI.routeMessage, ClientUI.subscription_key.
    by destruct (if_truthy gameId). }
  assert (Hiff : ∀ gameId,
            l ∈ ClientUI.routeMessage table gameId
            ↔ ClientUI.subscription_key gameId
              = ClientUI.subscription_key autoJoinGameId
              ∧ l ∈ default []
                      (table !! ClientUI.subscription_key autoJoinGameId)).
  { intros gameId. rewrite Hroute. split.
    - intros Hin.
      destruct (table !! ClientUI.subscription_key gameId) as [ls|] eqn:Hk;
        [|by apply elem_of_nil in Hin].
      simpl in Hin. pose proof (Honly _ _ Hk Hin) as Heq.
      split; [done|]. by rewrite <- Heq, Hk.
    - by intros [-> ?]. }
  split; [exact Hiff|]. split.
  - intros g message Hg Hne Hin. apply Hiff in Hin as [Heq _].
    unfold ClientUI.subscription_key in Heq. rewrite Hg in Heq.
    simpl in Heq. congruence.
  - intros g color fen status players revealed Hnone Hg Hne Hin.
    apply Hiff in Hin as [Heq _].
    unfold ClientUI.subscription_key in Heq. simpl in Heq.
    rewrite Hnone, Hg in Heq. simpl in Heq. congruence.
Qed.

Lemma frames_reach_one_key_witness :
  2 ∉ ClientUI.routeMessage
        (fold_left ClientUI.sub_step
           [ClientUI.Subscribe "__global__" 1; ClientUI.Subscribe "a" 2] ∅)
        (ClientUI.event_gameId (EvError "Not your turn")).
Proof.
  destruct (frames_reach_one_key
              (fold_left ClientUI.sub_step
                 [ClientUI.Subscribe "__global__" 1; ClientUI.Subscribe "a" 2]
                 ∅) 2 (Some "a"%string)) as (_ & H & _).
  - intros k ls. destruct (decide (k = "a"%string)) as [->|Hk]; [done|].
    destruct (decide (k = "__global__"%string)) as [->|Hg].
    + vm_compute. intros [= <-] Hin.
      apply list_elem_of_singleton in Hin. discriminate.
    + unfold ClientUI.sub_step, ClientUI.subscribe. cbn [fold_left].
      rewrite !lookup_insert_ne by done. by rewrite lookup_empty.
  - apply (H "a"%string "Not your turn"%string); [reflexivity|by intros [=]].
Defined.

Lemma attemptReconnect_below (a : nat) :
  a < 5 →
  ClientUI.attemptReconnect a = (S a, Some (1000 * 2 ^ Z.of_nat a)%Z).
Proof.
  intros Ha. unfold ClientUI.attemptReconnect, ClientUI.maxReconnectAttempts,
    ClientUI.reconnectDelay.
  rewrite bool_decide_eq_false_2 by lia.
  by replace (Z.of_nat (S a) - 1)%Z with (Z.of_nat a) by lia.
Qed.

Lemma attemptReconnect_spent (a : nat) :
  5 ≤ a → ClientUI.attemptReconnect a = (a, None).
Proof.
  intros Ha. unfold ClientUI.attemptReconnect, ClientUI.maxReconnectAttempts.
  by rewrite bool_decide_eq_true_2 by lia.
Qed.

Lemma closes_in_a_row_from (n a : nat) :
  a ≤ 5 →
  ClientUI.closes_in_a_row n a
  = (Nat.min (a + n) 5,
     map (fun i => (1000 * 2 ^ Z.of_nat i)%Z)
       (seq a (Nat.min (a + n) 5 - a))).
Proof.
  revert a. induction n as [|n IH]; intros a Ha.
  - simpl. replace (Nat.min (a + 0) 5) with a by lia.
    by rewrite Nat.sub_diag.
  - cbn [ClientUI.closes_in_a_row].
    destruct (decide (a < 5)) as [Hlt|Hge].
    + rewrite attemptReconnect_below by done. rewrite IH by lia.
      replace (S a + n) with (a + S n) by lia.
      replace (Nat.min (a + S n) 5 - a)
        with (S (Nat.min (a + S n) 5 - S a)) by lia.
      done.
    + rewrite attemptReconnect_spent by lia. rewrite IH by lia.
      replace (Nat.min (a + n) 5) with a by lia.
      replace (Nat.min (a + S n) 5) with a by lia.
      by rewrite Nat.sub_diag.
Qed.

(** X23.  Reconnection backs off and gives up.  When the socket closes
    again and again without ever opening, the timers set wait one, two,
    four, eight and sixteen seconds, in that order; after the fifth close
    no timer is set any more.  The count of attempts never passes five
    and the waits add up to at most thirty-one seconds. *)
Theorem reconnect_backs_off_and_gives_up (n : nat) :
  let '(attempts, delays) := ClientUI.closes_in_a_row n 0 in
  attempts = Nat.min n 5
  ∧ delays = take n [1000; 2000; 4000; 8000; 16000]%Z
  ∧ (foldr Z.add 0 delays ≤ 31000)%Z.
Proof.
  rewrite closes_in_a_row_from by lia. cbn [Nat.add]. rewrite Nat.sub_0_r.
  split; [done|].
  destruct n as [|[|[|[|[|n]]]]]; try (by vm_compute).
  replace (Nat.min (S (S (S (S (S n))))) 5) with 5 by lia.
  rewrite take_ge by (simpl; lia). by vm_compute.
Qed.

Lemma default_last_cons (x y : ClientUI.ConnectionState)
    (l : list ClientUI.ConnectionState) :
  default y (last l) = default x (last (y :: l)).
Proof.
  destruct l as [|c cs]; [done|].
  change (last (y :: c :: cs)) with (last (c :: cs)).
  destruct (last (c :: cs)) eqn:Hl; [done|]. by apply last_None in Hl.
Qed.

Lemma setStates_final (state : ClientUI.ConnectionState)
    (calls : list ClientUI.ConnectionState) :
  (ClientUI.setStates state calls).1 = default state (last calls).
Proof.
  revert state. induction calls as [|s calls IH]; intros state; [done|].
  cbn [ClientUI.setStates]. unfold ClientUI.setState.
  case_bool_decide as Hs.
  - specialize (IH s). destruct (ClientUI.setStates s calls) as [s2 out2].
    simpl in *. rewrite IH. by apply default_last_cons.
  - assert (state = s) as -> by (destruct (decide (state = s)); [done|];
                                  by destruct Hs).
    specialize (IH s). destruct (ClientUI.setStates s calls) as [s2 out2].
    simpl in *. rewrite IH. by apply default_last_cons.
Qed.

Lemma setStates_neighbours (state : ClientUI.ConnectionState)
    (calls : list ClientUI.ConnectionState) (i : nat)
    (a b : ClientUI.ConnectionState) :
  (state :: (ClientUI.setStates state calls).2) !! i = Some a →
  (state :: (ClientUI.setStates state calls).2) !! S i = Some b →
  a ≠ b.
Proof.
  revert state i. induction calls as [|s calls IH]; intros state i.
  - simpl. by destruct i.
  - cbn [ClientUI.setStates]. unfold ClientUI.setState.
    case_bool_decide as Hs.
    + specialize (IH s). destruct (ClientUI.setStates s calls) as [s2 out2].
      cbn [snd app] in *. destruct i as [|i].
      * simpl. intros [= <-] [= <-]. done.
      * apply IH.
    + specialize (IH state).
      assert (state = s) as <- by (destruct (decide (state = s)); [done|];
                                   by destruct Hs).
      destruct (ClientUI.setStates state calls) as [s2 out2].
      cbn [snd app] in *. apply IH.
Qed.

(** X24.  The listeners of the connection state are told about changes
    only.  Whatever sequence of states the socket events set, the state
    kept at the end is the last one set, and no two notifications in a
    row, nor the first one and the state before it, carry the same
    state: setting the state it already has notifies nobody. *)
Theorem state_listeners_hear_changes_only
    (state : ClientUI.ConnectionState)
    (calls : list ClientUI.ConnectionState) :
  let '(final, heard) := ClientUI.setStates state calls in
  final = default state (last calls)
  ∧ (∀ i a b, (state :: heard) !! i = Some a →
              (state :: heard) !! S i = Some b → a ≠ b)
  ∧ length heard ≤ length calls.
Proof.
  pose proof (setStates_final state calls) as Hfinal.
  pose proof (setStates_neighbours state calls) as Hn.
  assert (Hlen : length (ClientUI.setStates state calls).2 ≤ length calls).
  { clear. revert state. induction calls as [|s calls IH]; intros state;
      [done|].
    cbn [ClientUI.setStates]. unfold ClientUI.setState.
    case_bool_decide; [specialize (IH s)|specialize (IH state)];
      destruct (ClientUI.setStates _ calls) as [s2 out2]; simpl in *; lia. }
  destruct (ClientUI.setStates state calls) as [final heard].
  simpl in *. by repeat split.
Qed.

(** * The status until the first end request *)

Lemma step_status_computed (w : World) (t : Tick) :
  is_end t = false →
  map_Forall (fun _ g => g_status g = seat_status (g_players g)) (games w) →
  map_Forall (fun _ g => g_status g = seat_status (g_players g))
    (games (step w t).1).
Proof.
  unfold is_end, step. destruct t as [ready [s uuid|s parsed uuid|s]];
    cbn [t_input t_ready]; intros Hend Hinv.
  - by destruct (conns w !! s).
  - destruct (conns w !! s) as [client|]; [|done]. cbn [fst games].
    destruct parsed as [m|]; [|done]. unfold Hub.on_message.
    destruct (type_is m "ping"); [done|].
    destruct (type_is m "create").
    { unfold Hub.on_create. destruct (games w !! _); [done|]. cbn [r_games].
      apply map_Forall_insert_2; [|done]. cbn [g_status g_players].
      by destruct (normalizeColor _). }
    destruct (type_is m "join").
    { unfold Hub.on_join. destruct (m_gameId m) as [key|]; [|done]. simpl.
      destruct (games w !! key) as [game|] eqn:Hkey; [|done]. simpl.
      destruct (Hub.assignedColor game _); cbn [r_games];
        (apply map_Forall_insert_2; [|done]); [done|].
      exact (Hinv _ _ Hkey). }
    rewrite Hend. destruct (isMoveMessage m) as [mv|]; [|done].
    unfold Hub.on_move.
    destruct (if_truthy (c_gameId client)) as [gid|]; [|done].
    destruct (c_color client) as [color|]; [|done].
    destruct (games w !! gid) as [game|] eqn:Hg; [|done].
    destruct (bool_decide _); [done|].
    destruct (if_truthy (FEN mv)); [|done]. cbn [r_games].
    apply map_Forall_insert_2; [|done]. exact (Hinv _ _ Hg).
  - destruct (conns w !! s) as [client|]; [|done].
    unfold Hub.removeClientFromGame.
    destruct (if_truthy (c_gameId client)) as [gid|]; [|done].
    destruct (games w !! gid) as [game|]; [|done]. cbn [fst games].
    by apply map_Forall_insert_2.
Qed.

Lemma run_status_computed (ts : list Tick) (w : World) :
  forallb (fun t => negb (is_end t)) ts = true →
  map_Forall (fun _ g => g_status g = seat_status (g_players g)) (games w) →
  map_Forall (fun _ g => g_status g = seat_status (g_players g))
    (games (run w ts).1).
Proof.
  revert w. induction ts as [|t ts IH]; simpl; intros w Hall Hinv; [done|].
  apply andb_prop in Hall as [Ht Hall]. apply negb_true_iff in Ht.
  pose proof (step_status_computed w t Ht Hinv) as H1.
  destruct (step w t) as [w1 out1]. simpl in H1.
  pose proof (IH w1 Hall H1) as H2.
  by destruct (run w1 ts) as [w2 out2].
Qed.

(** X25.  Until the first end request arrives, the status of every room
    is the one computed from its seats: active when both are taken,
    waiting otherwise.  No other input, from any connection, makes a room
    ended. *)
Theorem status_is_computed_until_end (ts : list Tick) (k : string)
    (g : Game) :
  forallb (fun t => negb (is_end t)) ts = true →
  games (run empty_world ts).1 !! k = Some g →
  g_status g = (if both_seated (g_players g) then active else waiting)
  ∧ g_status g ≠ ended.
Proof.
  intros Hall Hk.
  pose proof (run_status_computed ts empty_world Hall (map_Forall_empty _)
                k g Hk) as H.
  simpl in H. split; [exact H|]. rewrite H. apply seat_status_not_ended.
Qed.

Lemma status_is_computed_until_end_witness :
  ∃ g, games full_table !! "a"%string = Some g ∧ g_status g ≠ ended.
Proof.
  eexists. split; [apply full_table_room|].
  apply (status_is_computed_until_end
           [tick (Connect 1 "u1");
            tick (Receive 1 (Some (msg_create (Some "a"%string) None))
                    some_uuid);
            tick (Connect 2 "u2");
            tick (Receive 2 (Some (msg_join (Some "a"%string) None))
                    some_uuid);
            tick (Connect 3 "u3");
            tick (Receive 3 (Some (msg_join (Some "a"%string) None))
                    some_uuid)] "a"); by vm_compute.
Defined.

(** The close of a connection and the seats it holds in other rooms. *)
Lemma close_keeps_other_rooms_witness :
  games (step (step one_seated
                 (tick (Receive 1 (Some (msg_create (Some "b"%string) None))
                          some_uuid))).1
           (tick (Close 1))).1 !! "a"%string
  = games one_seated !! "a"%string.
Proof.
  destruct (close_keeps_other_rooms
              (step one_seated
                 (tick (Receive 1 (Some (msg_create (Some "b"%string) None))
                          some_uuid))).1
              (tick (Close 1)) 1
              {| c_id := "u1"; c_socket := 1; c_name := None;
                 c_color := Some white; c_gameId := Some "b"%string;
                 c_viewer := None |} "a" eq_refl) as [H _].
  - by vm_compute.
  - by intros [=].
  - rewrite H. by vm_compute.
Defined.

Lemma state_listeners_hear_changes_only_witness :
  ClientUI.setStates ClientUI.cs_connecting
    [ClientUI.cs_closed; ClientUI.cs_closed; ClientUI.cs_connecting]
  = (ClientUI.cs_connecting, [ClientUI.cs_closed; ClientUI.cs_connecting]).
Proof.
  pose proof (state_listeners_hear_changes_only ClientUI.cs_connecting
                [ClientUI.cs_closed; ClientUI.cs_closed;
                 ClientUI.cs_connecting]) as H.
  destruct (ClientUI.setStates _ _) as [final heard] eqn:Hrun.
  destruct H as (-> & Hn & _). by injection Hrun as <-.
Defined.
